(** * TagLib [FileStream]: positioned reads and writes, [insert] and
      [removeBlock] on an open file

    Shallow embedding of [taglib/toolkit/tfilestream.cpp].

    The source has two backends selected by [#ifdef _WIN32]: the Win32
    handle API and the buffered C library ([FILE*]).  Both are kept here,
    as the two values of [Backend]; every method takes the backend as its
    first argument and the theorems quantify over it unless they say
    otherwise.

    What the operating system does is not code of the repository.  It is
    modelled in [Module OS] from the contract the specification gives for
    the file primitive and from the documented behaviour of the calls the
    source makes ([fopen], [fread], [fwrite], [fseeko], [ftello],
    [clearerr], [ftruncate]; [CreateFile], [ReadFile], [WriteFile],
    [SetFilePointer], [GetFileSize], [SetEndOfFile]): an open file is its
    bytes, a position, the access mode it was opened with and, for the C
    library, the end-of-file and error indicators of the stream.  The
    wrappers the source puts around these calls ([openFile], [readFile],
    [writeFile]) are translated from the source, over that model.  The
    buffer a [FILE*] keeps in front of the file is not modelled: the
    bytes of the model are the file as it is seen through the stream.
    [ftruncate], which goes past that buffer, is described for the state
    in which [removeBlock] calls it, the only call of [truncate] that the
    public interface leads to ([reached]).

    Integers: [offset_t] is a signed 64-bit integer, [size_t] an unsigned
    64-bit one (LP64 and Win64) and [DWORD] an unsigned 32-bit one.  They
    are carried as [Z]; the arithmetic and the casts the source does on
    them are written with their wrap-around ([to_offset], [to_size],
    [to_dword]).  The loops of the source are not structurally recursive, so
    their models take a [fuel] and return [None] when it runs out; a
    parameter the source calls [length] is [length0] here, [length] being
    the method. *)

From Stdlib Require Import ZArith List Lia Bool String Strings.Byte.
Import ListNotations.
Open Scope Z_scope.

(** ** Byte vectors *)

(** Modelled from the spec: [TagLib::ByteVector] (declared in
    [tbytevector.h]) is the byte buffer of the specification, a sequence
    of bytes with value semantics: a copy is not changed by a later write
    into the original. *)
Definition ByteVector := list byte.

(** [v.size()]. *)
Definition size (v : ByteVector) : Z := Z.of_nat (List.length v).

(** Modelled from the spec: [ByteVector(n)] and [ByteVector(n, 0)], a
    buffer of [n] bytes; the bytes are zero. *)
Definition zeros (n : Z) : ByteVector := repeat x00 (Z.to_nat n).

(** Modelled from the spec: [v.resize(n)] shrinks the buffer to its first
    [n] bytes; a longer buffer is padded with zero bytes. *)
Definition resize (n : Z) (v : ByteVector) : ByteVector :=
  firstn (Z.to_nat n) v ++ repeat x00 (Z.to_nat n - List.length v).

(** The bytes of [v] from offset [pos] on, its first [pos] bytes, and the
    [n] bytes at [pos] (fewer when [v] ends before). *)
Definition from (pos : Z) (v : ByteVector) : ByteVector :=
  skipn (Z.to_nat pos) v.

Definition upto (pos : Z) (v : ByteVector) : ByteVector :=
  firstn (Z.to_nat pos) v.

Definition mid (pos n : Z) (v : ByteVector) : ByteVector :=
  upto n (from pos v).

(** ** Machine integers *)

(** Modelled from the spec: offsets ([offset_t]) are 64-bit signed. *)
Definition OFFSET_MAX : Z := 2 ^ 63 - 1.

(** Conversion to [offset_t] (two's complement). *)
Definition to_offset (z : Z) : Z := (z + 2 ^ 63) mod 2 ^ 64 - 2 ^ 63.

(** [size_t], taken as 64 bits wide, and the conversion to it. *)
Definition SIZE_MAX : Z := 2 ^ 64 - 1.

Definition to_size (z : Z) : Z := z mod 2 ^ 64.

(** [DWORD], 32 bits wide, and [static_cast<DWORD>]. *)
Definition DWORD_MAX : Z := 2 ^ 32 - 1.

Definition to_dword (z : Z) : Z := z mod 2 ^ 32.

Inductive Backend : Set := Win32 | Posix.

(** [const size_t BufferSize]: 8192 with the Win32 API, 1024 otherwise. *)
Definition BufferSize (b : Backend) : Z :=
  match b with Win32 => 8192 | Posix => 1024 end.

(** The number of bytes [readFile] and [writeFile] ask the backend to
    transfer for a buffer: [static_cast<DWORD>(buffer.size())] with the
    Win32 API, [buffer.size()] with the C library. *)
Definition transfer_length (b : Backend) (buffer : ByteVector) : Z :=
  match b with
  | Win32 => to_dword (size buffer)
  | Posix => size buffer
  end.

(** The largest buffer that is transferred whole. *)
Definition transfer_max (b : Backend) : Z :=
  match b with
  | Win32 => DWORD_MAX
  | Posix => SIZE_MAX
  end.

(** ** The operating system's side of an open file *)

Module OS.

(** Modelled from the spec: the native file handle of the file
    primitive, when it is not [InvalidFileHandle]. *)
Record FileHandle : Set := mkHandle {
  content  : ByteVector;   (* the bytes of the file *)
  position : Z;            (* the file pointer *)
  writable : bool;         (* opened "rb+" / GENERIC_READ|GENERIC_WRITE *)
  eof      : bool;         (* end-of-file indicator of a FILE* *)
  err      : bool          (* error indicator of a FILE* *)
}.

(** A file as [openFile] finds it on disk. *)
Record DiskFile : Set := mkDisk {
  bytes    : ByteVector;
  mayWrite : bool          (* whether opening for writing is permitted *)
}.

Definition set_position (p : Z) (h : FileHandle) : FileHandle :=
  mkHandle (content h) p (writable h) (eof h) (err h).

Definition set_content (c : ByteVector) (h : FileHandle) : FileHandle :=
  mkHandle c (position h) (writable h) (eof h) (err h).

Definition set_eof (e : bool) (h : FileHandle) : FileHandle :=
  mkHandle (content h) (position h) (writable h) e (err h).

Definition set_err (e : bool) (h : FileHandle) : FileHandle :=
  mkHandle (content h) (position h) (writable h) (eof h) e.

(** [openFile(path, readOnly)], on what the file system holds under
    [path].  [fopen(path, readOnly ? "rb" : "rb+")] and
    [CreateFile(.., OPEN_EXISTING, ..)] fail when the file is absent, or
    when writing is asked for and not permitted. *)
Definition openFile (f : option DiskFile) (readOnly : bool) : option FileHandle :=
  match f with
  | None => None
  | Some f =>
      if readOnly then Some (mkHandle (bytes f) 0 false false false)
      else if mayWrite f then Some (mkHandle (bytes f) 0 true false false)
      else None
  end.

(** Bytes [data] stored at offset [pos] of a file holding [c]; a gap
    between the end of the file and [pos] reads as zero bytes. *)
Definition pwrite (pos : Z) (data c : ByteVector) : ByteVector :=
  upto pos c ++ repeat x00 (Z.to_nat pos - List.length c) ++ data
    ++ from (pos + size data) c.

(** [readFile(file, buffer)].  [ReadFile] is asked for
    [static_cast<DWORD>(buffer.size())] bytes, [fread] for [buffer.size()];
    both read at most that many bytes at the file pointer into the front
    of [buffer] and advance the pointer.  The result is the count, the
    buffer and the file.  [fread] sets the end-of-file indicator when the
    file ends before the request is met. *)
Definition readFile (b : Backend) (h : FileHandle) (buffer : ByteVector)
  : Z * ByteVector * FileHandle :=
  let got := mid (position h) (transfer_length b buffer) (content h) in
  let count := size got in
  let e := match b with
           | Posix => eof h || (count <? size buffer)
           | Win32 => eof h
           end in
  (count, got ++ from count buffer,
   mkHandle (content h) (position h + count) (writable h) e (err h)).

(** [writeFile(file, buffer)].  [WriteFile] is asked for
    [static_cast<DWORD>(buffer.size())] bytes, [fwrite] for
    [buffer.size()]; both write that many bytes from the front of [buffer]
    at the file pointer and advance it.  On a file not opened for writing
    nothing is written and the count is 0; [fwrite] then sets the error
    indicator. *)
Definition writeFile (b : Backend) (h : FileHandle) (buffer : ByteVector)
  : Z * FileHandle :=
  if writable h then
    match upto (transfer_length b buffer) buffer with
    | [] => (0, h)
    | x :: written =>
        (size (x :: written),
         mkHandle (pwrite (position h) (x :: written) (content h))
                  (position h + size (x :: written)) true (eof h) (err h))
    end
  else
    match buffer, b with
    | _ :: _, Posix => (0, set_err true h)
    | _, _ => (0, h)
    end.

End OS.

(** ** The stream: [class FileStream] *)

(** Modelled from the spec: the origin of a seek ([IOStream::Position]) is
    one of Beginning, Current, End. *)
Inductive Position : Set := Beginning | Current | End.

Module FileStream.

Import OS.

(** [FileStreamPrivate] ([file], [name], [readOnly]), together with the
    messages handed to [debug()] so far, oldest first.  [file = None] is
    [InvalidFileHandle]. *)
Record FileStreamPrivate : Set := mkStream {
  file     : option FileHandle;
  name     : string;
  readOnly : bool;
  debugLog : list string
}.

(** Modelled from the spec: [debug()] (declared in [tdebug.h]) is the
    side channel for diagnostic messages; it changes nothing else. *)
Definition debug (msg : string) (d : FileStreamPrivate) : FileStreamPrivate :=
  mkStream (file d) (name d) (readOnly d) (debugLog d ++ [msg]).

Definition set_file (h : FileHandle) (d : FileStreamPrivate) : FileStreamPrivate :=
  mkStream (Some h) (name d) (readOnly d) (debugLog d).

(** [FileStream::FileStream(fileName, openReadOnly)], on the file system
    [disk]: first read/write unless [openReadOnly], then read only. *)
Definition open (disk : string -> option DiskFile) (fileName : string)
           (openReadOnly : bool) : FileStreamPrivate :=
  let d := mkStream None fileName true [] in
  let d := if negb openReadOnly
           then mkStream (openFile (disk fileName) false) fileName true []
           else d in
  let d := match file d with
           | Some _ => mkStream (file d) fileName false []
           | None => mkStream (openFile (disk fileName) true) fileName true []
           end in
  match file d with
  | None => debug ("Could not open file " ++ fileName) d
  | Some _ => d
  end.

Definition isOpen (d : FileStreamPrivate) : bool :=
  match file d with Some _ => true | None => false end.

(** The offset a seek asks for, before the backend accepts or refuses it. *)
Definition seek_target (h : FileHandle) (offset : Z) (p : Position) : Z :=
  match p with
  | Beginning => offset
  | Current => position h + offset
  | End => size (content h) + offset
  end.

(** [FileStream::seek(offset, p)].  [SetFilePointer] refuses a negative
    target with [ERROR_NEGATIVE_SEEK], and the Win32 branch then moves to
    the beginning; [fseeko] refuses it too and its result is not looked
    at.  A successful [fseeko] resets the end-of-file indicator.  (The
    [default:] case of the [switch] has no value of [Position].) *)
Definition seek (b : Backend) (offset : Z) (p : Position)
           (d : FileStreamPrivate) : FileStreamPrivate :=
  match file d with
  | None => debug "FileStream::seek() -- invalid file." d
  | Some h =>
      let target := seek_target h offset p in
      match b with
      | Win32 =>
          if target <? 0 then set_file (set_position 0 h) d
          else if OFFSET_MAX <? target
          then debug "FileStream::seek() -- Failed to set the file pointer." d
          else set_file (set_position target h) d
      | Posix =>
          if (target <? 0) || (OFFSET_MAX <? target) then d
          else set_file (set_eof false (set_position target h)) d
      end
  end.

(** [FileStream::clear()]: [clearerr] on a [FILE*], nothing on Win32.
    Like [tell] and [truncate] it does not test [isOpen]: on a stream
    that is not open the source hands a null [FILE*] to the C library,
    which is not defined; the [None] case below stands for no outcome of
    the code. *)
Definition clear (b : Backend) (d : FileStreamPrivate) : FileStreamPrivate :=
  match b, file d with
  | Posix, Some h => set_file (set_err false (set_eof false h)) d
  | _, _ => d
  end.

(** [FileStream::tell()]. *)
Definition tell (b : Backend) (d : FileStreamPrivate) : Z :=
  match file d with
  | Some h => position h
  | None => 0
  end.

(** [FileStream::length()]: [GetFileSize] on Win32; otherwise seek to
    the end, [tell], and seek back. *)
Definition length (b : Backend) (d : FileStreamPrivate) : Z * FileStreamPrivate :=
  match file d with
  | None => (0, debug "FileStream::length() -- invalid file." d)
  | Some h =>
      match b with
      | Win32 => (size (content h), d)
      | Posix =>
          let currentPosition := tell b d in
          let d := seek b 0 End d in
          let endPosition := tell b d in
          let d := seek b currentPosition Beginning d in
          (endPosition, d)
      end
  end.

(** [readFile(d->file, buffer)] and [writeFile(d->file, buffer)] on the
    stream's handle. *)
Definition readFile_d (b : Backend) (buffer : ByteVector) (d : FileStreamPrivate)
  : Z * ByteVector * FileStreamPrivate :=
  match file d with
  | Some h => let '(count, buffer, h) := readFile b h buffer in
              (count, buffer, set_file h d)
  | None => (0, buffer, d)
  end.

Definition writeFile_d (b : Backend) (buffer : ByteVector) (d : FileStreamPrivate)
  : Z * FileStreamPrivate :=
  match file d with
  | Some h => let '(count, h) := writeFile b h buffer in (count, set_file h d)
  | None => (0, d)
  end.

(** The value of [length] when [readBlock] allocates its buffer. *)
Definition readBlock_request (b : Backend) (length0 : Z) (d : FileStreamPrivate)
  : Z * FileStreamPrivate :=
  let '(streamLength, d) := length b d in
  if (length0 >? BufferSize b) && (to_offset length0 >? streamLength)
  then (to_size streamLength, d)
  else (length0, d).

(** [FileStream::readBlock(length)]. *)
Definition readBlock (b : Backend) (length0 : Z) (d : FileStreamPrivate)
  : ByteVector * FileStreamPrivate :=
  if negb (isOpen d) then
    ([], debug "FileStream::readBlock() -- invalid file." d)
  else if length0 =? 0 then ([], d)
  else
    let '(length1, d) := readBlock_request b length0 d in
    let buffer := zeros length1 in
    let '(count, buffer, d) := readFile_d b buffer d in
    (resize count buffer, d).

(** [FileStream::writeBlock(data)]. *)
Definition writeBlock (b : Backend) (data : ByteVector) (d : FileStreamPrivate)
  : FileStreamPrivate :=
  if negb (isOpen d) then debug "FileStream::writeBlock() -- invalid file." d
  else if readOnly d then debug "FileStream::writeBlock() -- read only file." d
  else snd (writeFile_d b data d).

(** [FileStream::truncate(length)].  Win32: remember the position, seek
    to [length], [SetEndOfFile] (the file ends at the file pointer), seek
    back.  Otherwise [ftruncate(fileno(file), length)].  Both need a file
    opened for writing; a longer file is filled with zero bytes.

    [ftruncate] acts on the file descriptor, behind the buffer of the
    [FILE*].  The branch below describes it when the [FILE*] holds no
    bytes of its own, as where [removeBlock] calls it (after a seek and a
    write of no byte); it is used for nothing else in the properties about
    the bytes of a file that may be written.  On a stream that is not
    open the source hands a null [FILE*] to [fileno]; the [None] case
    stands for no outcome of the code. *)
Definition truncate (b : Backend) (length0 : Z) (d : FileStreamPrivate)
  : FileStreamPrivate :=
  match b with
  | Win32 =>
      let currentPos := tell b d in
      let d := seek b length0 Beginning d in
      let d := match file d with
               | Some h =>
                   if writable h
                   then set_file (set_content (resize (position h) (content h)) h) d
                   else debug "FileStream::truncate() -- Failed to truncate the file." d
               | None => d
               end in
      seek b currentPos Beginning d
  | Posix =>
      match file d with
      | Some h =>
          if writable h && (0 <=? length0) && (length0 <=? OFFSET_MAX)
          then set_file (set_content (resize length0 (content h)) h) d
          else debug "FileStream::truncate() -- Coundn't truncate the file." d
      | None => d
      end
  end.

(** *** [removeBlock] *)

(** The variables of the copy loop of [removeBlock]. *)
Record RemoveVars : Set := mkRemove {
  rm_readPosition  : Z;
  rm_writePosition : Z;
  rm_buffer        : ByteVector;
  rm_bytesRead     : Z;
  rm_d             : FileStreamPrivate
}.

(** One pass through the body of the [for] loop. *)
Definition removeBlock_body (b : Backend) (v : RemoveVars) : RemoveVars :=
  let d := seek b (rm_readPosition v) Beginning (rm_d v) in
  let '(bytesRead, buffer, d) := readFile_d b (rm_buffer v) d in
  let readPosition := to_offset (rm_readPosition v + bytesRead) in
  let '(buffer, d) :=
    if bytesRead <? size buffer
    then (resize bytesRead buffer, clear b d)
    else (buffer, d) in
  let d := seek b (rm_writePosition v) Beginning d in
  let d := snd (writeFile_d b buffer d) in
  let writePosition := to_offset (rm_writePosition v + bytesRead) in
  mkRemove readPosition writePosition buffer bytesRead d.

(** [for(size_t bytesRead = -1; bytesRead != 0;) { ... }] *)
Fixpoint removeBlock_loop (fuel : nat) (b : Backend) (v : RemoveVars)
  : option RemoveVars :=
  if rm_bytesRead v =? 0 then Some v
  else match fuel with
       | O => None
       | S fuel => removeBlock_loop fuel b (removeBlock_body b v)
       end.

(** [FileStream::removeBlock(start, length)]. *)
Definition removeBlock (fuel : nat) (b : Backend) (start length0 : Z)
           (d : FileStreamPrivate) : option FileStreamPrivate :=
  if negb (isOpen d) then
    Some (debug "FileStream::removeBlock() -- invalid file." d)
  else
    let bufferLength := BufferSize b in
    let readPosition := to_offset (start + length0) in
    let writePosition := start in
    let buffer := zeros bufferLength in
    match removeBlock_loop fuel b
            (mkRemove readPosition writePosition buffer (to_size (-1)) d) with
    | None => None
    | Some v => Some (truncate b (rm_writePosition v) (rm_d v))
    end.

(** *** [insert] *)

(** [while(data.size() - replace > bufferLength) bufferLength += BufferSize;] *)
Fixpoint insert_bufferLength (fuel : nat) (b : Backend) (delta bufferLength : Z)
  : option Z :=
  if delta >? bufferLength then
    match fuel with
    | O => None
    | S fuel =>
        insert_bufferLength fuel b delta (to_size (bufferLength + BufferSize b))
    end
  else Some bufferLength.

(** The variables of the [while(true)] loop of [insert]. *)
Record InsertVars : Set := mkInsert {
  in_readPosition     : Z;
  in_writePosition    : Z;
  in_buffer           : ByteVector;
  in_aboutToOverwrite : ByteVector;
  in_d                : FileStreamPrivate
}.

(** First half of the loop body: seek to the read position, read, advance
    the read position by [bufferLength], [clear()] after a short read.
    Returns [bytesRead] with the variables. *)
Definition insert_read (b : Backend) (bufferLength : Z) (v : InsertVars)
  : Z * InsertVars :=
  let d := seek b (in_readPosition v) Beginning (in_d v) in
  let '(bytesRead, aboutToOverwrite, d) :=
    readFile_d b (in_aboutToOverwrite v) d in
  let aboutToOverwrite := resize bytesRead aboutToOverwrite in
  let readPosition := to_offset (in_readPosition v + bufferLength) in
  let d := if bytesRead <? bufferLength then clear b d else d in
  (bytesRead,
   mkInsert readPosition (in_writePosition v) (in_buffer v) aboutToOverwrite d).

(** Second half: seek to the write position and write the pending buffer;
    unless nothing was read (the [break]: [inl] with the stream), advance
    the write position and make what was read the pending buffer. *)
Definition insert_write (b : Backend) (bytesRead : Z) (v : InsertVars)
  : FileStreamPrivate + InsertVars :=
  let d := seek b (in_writePosition v) Beginning (in_d v) in
  let d := writeBlock b (in_buffer v) d in
  if bytesRead =? 0 then inl d
  else
    let writePosition := to_offset (in_writePosition v + size (in_buffer v)) in
    inr (mkInsert (in_readPosition v) writePosition (in_aboutToOverwrite v)
                  (in_aboutToOverwrite v) d).

Definition insert_body (b : Backend) (bufferLength : Z) (v : InsertVars)
  : FileStreamPrivate + InsertVars :=
  let '(bytesRead, v) := insert_read b bufferLength v in
  insert_write b bytesRead v.

(** [while(true) { ... }] *)
Fixpoint insert_loop (fuel : nat) (b : Backend) (bufferLength : Z)
         (v : InsertVars) : option FileStreamPrivate :=
  match fuel with
  | O => None
  | S fuel =>
      match insert_body b bufferLength v with
      | inl d => Some d
      | inr v => insert_loop fuel b bufferLength v
      end
  end.

(** The variables when the loop of the growing case is entered. *)
Definition insert_init (bufferLength : Z) (data : ByteVector) (start replace : Z)
           (d : FileStreamPrivate) : InsertVars :=
  mkInsert (to_offset (start + replace)) start data (zeros bufferLength) d.

(** [FileStream::insert(data, start, replace)]. *)
Definition insert (fuel : nat) (b : Backend) (data : ByteVector)
           (start replace : Z) (d : FileStreamPrivate)
  : option FileStreamPrivate :=
  if negb (isOpen d) then
    Some (debug "FileStream::insert() -- invalid file." d)
  else if readOnly d then
    Some (debug "FileStream::insert() -- read only file." d)
  else if size data =? replace then
    Some (writeBlock b data (seek b start Beginning d))
  else if size data <? replace then
    let d := writeBlock b data (seek b start Beginning d) in
    removeBlock fuel b (to_offset (start + size data))
                (to_size (replace - size data)) d
  else
    match insert_bufferLength fuel b (to_size (size data - replace))
            (BufferSize b) with
    | None => None
    | Some bufferLength =>
        insert_loop fuel b bufferLength
          (insert_init bufferLength data start replace d)
    end.


End FileStream.

(** ** Examples taken from the scenarios of the specification *)

Definition ascii_bytes (s : string) : ByteVector := list_byte_of_string s.

Definition rw_stream (c : ByteVector) (pos : Z) : FileStream.FileStreamPrivate :=
  FileStream.mkStream (Some (OS.mkHandle c pos true false false)) "a.bin" false [].

Definition ro_stream (c : ByteVector) (pos : Z) : FileStream.FileStreamPrivate :=
  FileStream.mkStream (Some (OS.mkHandle c pos false false false)) "a.bin" true [].

(** [sample n k]: [n] bytes that differ from their neighbours, starting
    from [k]. *)
Fixpoint sample (n : nat) (k : N) : ByteVector :=
  match n with
  | O => []
  | S n =>
      match Byte.of_N (k mod 256) with
      | Some x => x :: sample n (k + 7)
      | None => x00 :: sample n (k + 7)
      end
  end.

(** ** Notions used to state the properties *)

(** The bytes of the file behind a stream. *)
Definition contents (d : FileStream.FileStreamPrivate) : ByteVector :=
  match FileStream.file d with
  | Some h => OS.content h
  | None => []
  end.

(** [rw_at d c p]: [d] is open on a handle that may be written, the file
    holds [c] and the file pointer is [p]. *)
Definition rw_at (d : FileStream.FileStreamPrivate) (c : ByteVector) (p : Z) : Prop :=
  exists h, FileStream.file d = Some h /\ OS.content h = c /\ OS.position h = p
            /\ OS.writable h = true /\ FileStream.readOnly d = false.

(** [ro_with d c]: [d] is open on a handle that may not be written, and
    the file holds [c]. *)
Definition ro_with (d : FileStream.FileStreamPrivate) (c : ByteVector) : Prop :=
  exists h, FileStream.file d = Some h /\ OS.content h = c /\ OS.writable h = false.

(** What a write of [data] at [p] leaves in a file holding [c]: writing no
    byte does not touch the file, even past its end. *)
Definition stored (p : Z) (data c : ByteVector) : ByteVector :=
  match data with [] => c | _ => OS.pwrite p data c end.

(** A file being rewritten from its beginning: [patched wp new old] holds
    the bytes of [new] below [wp] and those of [old] from [wp] on.  It is
    the file of both loops of the splice when the write position is [wp]. *)
Definition patched (wp : Z) (new old : ByteVector) : ByteVector :=
  upto wp new ++ from wp old.

(** The file [old] without the [length0] bytes at [start]. *)
Definition removed (old : ByteVector) (start length0 : Z) : ByteVector :=
  upto start old ++ from (start + length0) old.

(** The variables when the loop of [removeBlock] is entered. *)
Definition remove_init (b : Backend) (start length0 : Z)
           (d : FileStream.FileStreamPrivate) : FileStream.RemoveVars :=
  FileStream.mkRemove (to_offset (start + length0)) start (zeros (BufferSize b))
                      (to_size (-1)) d.

(** The invariant of the loop of [removeBlock]: below the write position
    the file is already the final one, from there on it is still the old
    one; the read position is [length0] ahead. *)
Definition remove_inv (old : ByteVector) (start length0 : Z)
           (v : FileStream.RemoveVars) : Prop :=
  let rp := FileStream.rm_readPosition v in
  let wp := FileStream.rm_writePosition v in
  exists p,
    rw_at (FileStream.rm_d v) (patched wp (removed old start length0) old) p
    /\ start <= wp <= size (removed old start length0)
    /\ rp = wp + length0
    /\ (0 < size (FileStream.rm_buffer v) \/ size old <= rp)
    /\ (FileStream.rm_bytesRead v = 0 -> size old <= rp /\ 0 <= p <= OFFSET_MAX)
    /\ size (FileStream.rm_buffer v) <= DWORD_MAX.

(** The file [old] with [data] in the place of the [replace] bytes at
    [start]. *)
Definition inserted (old data : ByteVector) (start replace : Z) : ByteVector :=
  upto start old ++ data ++ from (start + replace) old.

(** The invariant of the loop of [insert].  Below the write position the
    file is the final one, from there on the old one; the pending buffer
    holds the bytes of the final file that come next, up to the image of
    the read position; the read position is not behind the write
    position. *)
Definition insert_inv (old data : ByteVector) (start replace bufferLength : Z)
           (v : FileStream.InsertVars) : Prop :=
  let rp := FileStream.in_readPosition v in
  let wp := FileStream.in_writePosition v in
  let buffer := FileStream.in_buffer v in
  let ato := FileStream.in_aboutToOverwrite v in
  exists p,
    rw_at (FileStream.in_d v) (patched wp (inserted old data start replace) old) p
    /\ start <= wp <= size (inserted old data start replace)
    /\ buffer = mid wp (size buffer) (inserted old data start replace)
    /\ wp + size buffer
       = Z.min (rp + (size data - replace)) (size (inserted old data start replace))
    /\ start + replace <= rp <= size old + bufferLength
    /\ wp <= rp
    /\ 0 < size ato
    /\ (size ato = bufferLength \/ size old <= rp)
    /\ size ato <= bufferLength
    /\ size buffer <= Z.max (size data) bufferLength.

(** The working buffer as the specification words it: the smallest
    multiple of the chunk size strictly greater than the growth. *)
Definition least_multiple_above (chunk delta bufferLength : Z) : Prop :=
  bufferLength mod chunk = 0
  /\ delta < bufferLength
  /\ forall m, m mod chunk = 0 -> delta < m -> bufferLength <= m.

(** The guard of [readBlock] as the specification words it: a request
    above the chunk size and above the number of bytes left from the
    position on is clamped to that number. *)
Definition clamped_to_rest (b : Backend) (maxLength : Z)
           (d : FileStream.FileStreamPrivate) : Prop :=
  BufferSize b < maxLength ->
  size (contents d) - FileStream.tell b d < maxLength ->
  fst (FileStream.readBlock_request b maxLength d)
  = size (contents d) - FileStream.tell b d.

(** [open_at d c p w]: [d] is open, the file holds [c], the file pointer
    is [p] and the handle may be written iff [w]. *)
Definition open_at (d : FileStream.FileStreamPrivate) (c : ByteVector) (p : Z)
           (w : bool) : Prop :=
  exists h, FileStream.file d = Some h /\ OS.content h = c /\ OS.position h = p
            /\ OS.writable h = w.

(** What the constructor establishes: the [readOnly] flag is the opposite
    of the access mode of the handle (and set when there is no handle),
    and the file pointer is not negative. *)
Definition well_formed (d : FileStream.FileStreamPrivate) : Prop :=
  match FileStream.file d with
  | Some h => OS.writable h = negb (FileStream.readOnly d) /\ 0 <= OS.position h
  | None => FileStream.readOnly d = true
  end.

(** [evolves d d']: what a method may do to a stream.  Name and flag are
    the same, an open stream stays open on a handle of the same access
    mode, a file pointer that was not negative is not negative, and the
    bytes behind a handle that may not be written are the same. *)
Definition evolves (d d' : FileStream.FileStreamPrivate) : Prop :=
  FileStream.name d' = FileStream.name d
  /\ FileStream.readOnly d' = FileStream.readOnly d
  /\ match FileStream.file d, FileStream.file d' with
     | Some h, Some h' =>
         OS.writable h' = OS.writable h
         /\ (0 <= OS.position h -> 0 <= OS.position h')
         /\ (OS.writable h = false -> OS.content h' = OS.content h)
     | None, None => True
     | _, _ => False
     end.

(** A call of one of the methods that change the stream, and a client
    that makes such calls one after the other. *)
Inductive Call : Set :=
| CallSeek (offset : Z) (p : Position)
| CallClear
| CallLength
| CallReadBlock (length0 : Z)
| CallWriteBlock (data : ByteVector)
| CallTruncate (length0 : Z)
| CallInsert (data : ByteVector) (start replace : Z)
| CallRemoveBlock (start length0 : Z).

Definition run (fuel : nat) (b : Backend) (c : Call)
           (d : FileStream.FileStreamPrivate) : option FileStream.FileStreamPrivate :=
  match c with
  | CallSeek offset p => Some (FileStream.seek b offset p d)
  | CallClear => Some (FileStream.clear b d)
  | CallLength => Some (snd (FileStream.length b d))
  | CallReadBlock length0 => Some (snd (FileStream.readBlock b length0 d))
  | CallWriteBlock data => Some (FileStream.writeBlock b data d)
  | CallTruncate length0 => Some (FileStream.truncate b length0 d)
  | CallInsert data start replace => FileStream.insert fuel b data start replace d
  | CallRemoveBlock start length0 => FileStream.removeBlock fuel b start length0 d
  end.

Fixpoint run_all (fuel : nat) (b : Backend) (cs : list Call)
         (d : FileStream.FileStreamPrivate) : option FileStream.FileStreamPrivate :=
  match cs with
  | [] => Some d
  | c :: cs =>
      match run fuel b c d with
      | Some d => run_all fuel b cs d
      | None => None
      end
  end.

(** The calls a client of the class can make: the source has [truncate]
    under "protected members". *)
Definition public_call (c : Call) : bool :=
  match c with
  | CallTruncate _ => false
  | _ => true
  end.

(** [reached b d]: the stream [d] is what a client has after constructing
    a stream and calling public methods on it. *)
Definition reached (b : Backend) (d : FileStream.FileStreamPrivate) : Prop :=
  exists fuel disk fileName openReadOnly cs,
    forallb public_call cs = true
    /\ run_all fuel b cs (FileStream.open disk fileName openReadOnly) = Some d.

(** ** Facts about byte vectors *)

Section ByteVectorFacts.

Implicit Types v w : ByteVector.

Lemma size_nonneg v : 0 <= size v.
Proof. unfold size; lia. Qed.

Lemma size_app v w : size (v ++ w) = size v + size w.
Proof. unfold size; rewrite length_app; lia. Qed.

Lemma size_nil_inv v : size v = 0 -> v = [].
Proof. destruct v; [reflexivity | unfold size; simpl; lia]. Qed.

Lemma size_repeat (n : nat) : size (repeat x00 n) = Z.of_nat n.
Proof. unfold size; now rewrite repeat_length. Qed.

Lemma size_zeros n : 0 <= n -> size (zeros n) = n.
Proof. intros; unfold zeros; rewrite size_repeat; lia. Qed.

Lemma size_upto n v : 0 <= n -> size (upto n v) = Z.min n (size v).
Proof. intros; unfold size, upto; rewrite length_firstn; lia. Qed.

Lemma size_from n v : 0 <= n -> size (from n v) = Z.max 0 (size v - n).
Proof. intros; unfold size, from; rewrite length_skipn; lia. Qed.

Lemma size_mid pos n v :
  0 <= pos -> 0 <= n -> size (mid pos n v) = Z.min n (Z.max 0 (size v - pos)).
Proof. intros; unfold mid; rewrite size_upto, size_from; lia. Qed.

Lemma upto_all n v : size v <= n -> upto n v = v.
Proof. unfold size, upto; intros; apply firstn_all2; lia. Qed.

Lemma upto_min n v : upto (Z.min n (size v)) v = upto n v.
Proof.
  destruct (Z.le_gt_cases n (size v)).
  - now rewrite Z.min_l.
  - rewrite Z.min_r, !upto_all by lia; reflexivity.
Qed.

Lemma from_all n v : size v <= n -> from n v = [].
Proof. unfold size, from; intros; apply skipn_all2; lia. Qed.

Lemma from_0 n v : n <= 0 -> from n v = v.
Proof. unfold from; intros; now replace (Z.to_nat n) with 0%nat by lia. Qed.

Lemma upto_from n v : upto n v ++ from n v = v.
Proof. apply firstn_skipn. Qed.

Lemma from_from m n v : 0 <= m -> 0 <= n -> from m (from n v) = from (n + m) v.
Proof.
  intros; unfold from; rewrite skipn_skipn; f_equal; lia.
Qed.

Lemma upto_add m n v :
  0 <= m -> 0 <= n -> upto (m + n) v = upto m v ++ mid m n v.
Proof.
  intros; unfold mid, upto, from.
  replace (Z.to_nat (m + n)) with (Z.to_nat m + Z.to_nat n)%nat by lia.
  generalize (Z.to_nat m) (Z.to_nat n); clear; intros a c; revert v.
  induction a as [| a IH]; intros v; simpl; [reflexivity |].
  destruct v; simpl; [now rewrite firstn_nil | now rewrite IH].
Qed.

Lemma upto_app_size v w : upto (size v) (v ++ w) = v.
Proof.
  unfold upto, size; rewrite Nat2Z.id, firstn_app, firstn_all.
  now rewrite Nat.sub_diag, firstn_0, app_nil_r.
Qed.

Lemma from_app_ge n v w : size v <= n -> from n (v ++ w) = from (n - size v) w.
Proof.
  unfold from, size; intros; rewrite skipn_app.
  rewrite (skipn_all2 v) by lia; simpl; f_equal; lia.
Qed.

Lemma mid_app_size v w rest : mid (size v) (size w) (v ++ w ++ rest) = w.
Proof.
  unfold mid; rewrite from_app_ge by lia.
  rewrite Z.sub_diag, from_0 by lia; apply upto_app_size.
Qed.

Lemma resize_front v w : resize (size v) (v ++ w) = v.
Proof.
  unfold resize, size; rewrite Nat2Z.id, length_app.
  replace (List.length v - (List.length v + List.length w))%nat with 0%nat by lia.
  simpl; rewrite app_nil_r, firstn_app, firstn_all, Nat.sub_diag, firstn_0.
  apply app_nil_r.
Qed.

Lemma resize_upto n v : 0 <= n <= size v -> resize n v = upto n v.
Proof.
  unfold resize, upto, size; intros.
  replace (Z.to_nat n - List.length v)%nat with 0%nat by lia.
  apply app_nil_r.
Qed.

Lemma resize_upto_all v : resize (size v) v = v.
Proof. rewrite resize_upto, upto_all by (pose proof (size_nonneg v); lia); reflexivity. Qed.

Lemma resize_grow n v : size v <= n -> resize n v = v ++ zeros (n - size v).
Proof.
  unfold resize, zeros, size; intros.
  rewrite firstn_all2 by lia; do 2 f_equal; lia.
Qed.

Lemma size_resize n v : 0 <= n -> size (resize n v) = n.
Proof.
  intros; unfold resize; rewrite size_app, size_repeat.
  unfold size; rewrite length_firstn; lia.
Qed.

Lemma to_offset_id z : - 2 ^ 63 <= z <= OFFSET_MAX -> to_offset z = z.
Proof.
  unfold to_offset, OFFSET_MAX; intros.
  rewrite Z.mod_small; lia.
Qed.

Lemma to_size_id z : 0 <= z <= SIZE_MAX -> to_size z = z.
Proof. unfold to_size, SIZE_MAX; intros; apply Z.mod_small; lia. Qed.

Lemma BufferSize_pos b : 0 < BufferSize b.
Proof. destruct b; reflexivity. Qed.

Lemma size_patched wp new old :
  0 <= wp <= size new -> size (patched wp new old) = Z.max wp (size old).
Proof.
  intros; unfold patched; rewrite size_app, size_upto, size_from; lia.
Qed.

Lemma patched_0 new old : patched 0 new old = old.
Proof. reflexivity. Qed.

Lemma patched_all wp new old :
  size new <= wp -> size old <= wp -> patched wp new old = new.
Proof.
  intros; unfold patched; rewrite upto_all, from_all by lia.
  apply app_nil_r.
Qed.

Lemma from_patched wp rp new old :
  0 <= wp <= size new -> wp <= rp ->
  from rp (patched wp new old) = from rp old.
Proof.
  intros; unfold patched.
  rewrite from_app_ge by (rewrite size_upto; lia).
  rewrite size_upto, from_from by lia.
  f_equal; lia.
Qed.

Lemma upto_patched wp new old :
  0 <= wp <= size new -> upto wp (patched wp new old) = upto wp new.
Proof.
  intros; unfold patched.
  replace wp with (size (upto wp new)) at 1 by (rewrite size_upto; lia).
  apply upto_app_size.
Qed.

(** Writing the next bytes of [new] at the write position moves the
    write position. *)
Lemma pwrite_patched wp n new old :
  0 <= wp <= size new -> 0 <= n ->
  OS.pwrite wp (mid wp n new) (patched wp new old)
  = patched (wp + size (mid wp n new)) new old.
Proof.
  intros Hwp Hn; unfold OS.pwrite.
  rewrite upto_patched by lia.
  replace (Z.to_nat wp - List.length (patched wp new old))%nat with 0%nat.
  2:{ pose proof (size_patched wp new old Hwp) as Hs; unfold size in Hs; lia. }
  simpl.
  rewrite from_patched by (pose proof (size_nonneg (mid wp n new)); lia).
  rewrite app_assoc; unfold patched; f_equal.
  rewrite size_mid by lia.
  rewrite upto_add by lia; f_equal.
  unfold mid; rewrite <- (upto_min n), size_from by lia; reflexivity.
Qed.

Lemma transfer_length_id b (v : ByteVector) :
  size v <= transfer_max b -> transfer_length b v = size v.
Proof.
  intros H; pose proof (size_nonneg v).
  destruct b; simpl in *; [| reflexivity].
  unfold to_dword, DWORD_MAX in *; apply Z.mod_small; lia.
Qed.

Lemma transfer_length_le b (v : ByteVector) :
  0 <= transfer_length b v <= size v.
Proof.
  pose proof (size_nonneg v).
  destruct b; simpl; [| lia].
  unfold to_dword.
  assert (0 < 2 ^ 32) as Hpos by reflexivity.
  pose proof (Z.mod_pos_bound (size v) (2 ^ 32) Hpos).
  pose proof (Z.mod_le (size v) (2 ^ 32) H Hpos); lia.
Qed.

Lemma BufferSize_transfer b : BufferSize b <= DWORD_MAX /\ DWORD_MAX <= transfer_max b.
Proof. destruct b; vm_compute; split; discriminate. Qed.

End ByteVectorFacts.

(** ** The methods on a stream that is open for writing *)

Section OpenForWriting.

Context (b : Backend).

Lemma stored_within p data c : 0 <= p <= size c -> stored p data c = OS.pwrite p data c.
Proof.
  intros; destruct data; [| reflexivity].
  unfold stored, OS.pwrite; simpl.
  replace (Z.to_nat p - List.length c)%nat with 0%nat by (unfold size in *; lia).
  rewrite Z.add_0_r; simpl; now rewrite upto_from.
Qed.

Lemma rw_at_isOpen d c p : rw_at d c p -> FileStream.isOpen d = true.
Proof. intros (h & Hf & _); unfold FileStream.isOpen; now rewrite Hf. Qed.

Lemma rw_at_readOnly d c p : rw_at d c p -> FileStream.readOnly d = false.
Proof. now intros (h & _ & _ & _ & _ & Hr). Qed.

Lemma seek_rw d c p offset :
  rw_at d c p -> 0 <= offset <= OFFSET_MAX ->
  rw_at (FileStream.seek b offset Beginning d) c offset.
Proof.
  intros (h & Hf & Hc & Hp & Hw & Hr) Ho.
  unfold FileStream.seek; rewrite Hf; simpl.
  assert ((offset <? 0) = false) as -> by lia.
  assert ((OFFSET_MAX <? offset) = false) as -> by lia.
  destruct b; simpl; eexists; repeat split; simpl; eauto.
Qed.

Lemma clear_rw d c p : rw_at d c p -> rw_at (FileStream.clear b d) c p.
Proof.
  intros (h & Hf & Hc & Hp & Hw & Hr).
  unfold FileStream.clear; rewrite Hf.
  destruct b; simpl; eexists; repeat split; simpl; eauto.
Qed.

Lemma readFile_d_rw d c p buffer :
  rw_at d c p -> size buffer <= transfer_max b ->
  exists d',
    FileStream.readFile_d b buffer d
    = (size (mid p (size buffer) c),
       mid p (size buffer) c ++ from (size (mid p (size buffer) c)) buffer, d')
    /\ rw_at d' c (p + size (mid p (size buffer) c)).
Proof.
  intros (h & Hf & Hc & Hp & Hw & Hr) Hb.
  unfold FileStream.readFile_d, OS.readFile; rewrite Hf, Hc, Hp.
  rewrite (transfer_length_id b buffer Hb).
  eexists; split; [reflexivity |].
  eexists; repeat split; simpl; eauto.
Qed.

Lemma writeFile_d_rw d c p data :
  rw_at d c p -> size data <= transfer_max b ->
  rw_at (snd (FileStream.writeFile_d b data d)) (stored p data c) (p + size data).
Proof.
  intros (h & Hf & Hc & Hp & Hw & Hr) Hb.
  unfold FileStream.writeFile_d, OS.writeFile; rewrite Hf, Hw.
  rewrite (transfer_length_id b data Hb), upto_all by lia.
  destruct data as [| x data]; simpl.
  - exists h; repeat split; simpl; auto.
    unfold size; simpl; lia.
  - eexists; repeat split; simpl; eauto; now rewrite ?Hc, ?Hp.
Qed.

Lemma writeBlock_rw d c p data :
  rw_at d c p -> size data <= transfer_max b ->
  rw_at (FileStream.writeBlock b data d) (stored p data c) (p + size data).
Proof.
  intros H Hb; unfold FileStream.writeBlock.
  rewrite (rw_at_isOpen _ _ _ H), (rw_at_readOnly _ _ _ H); simpl.
  now apply writeFile_d_rw.
Qed.

Lemma tell_rw d c p : rw_at d c p -> FileStream.tell b d = p.
Proof.
  intros (h & Hf & _ & Hp & _); unfold FileStream.tell; now rewrite Hf.
Qed.

End OpenForWriting.

Lemma truncate_rw b d c p n :
  rw_at d c p -> 0 <= n <= OFFSET_MAX -> 0 <= p <= OFFSET_MAX ->
  rw_at (FileStream.truncate b n d) (resize n c) p.
Proof.
  intros H Hn Hp0; unfold FileStream.truncate; destruct b.
  - rewrite (tell_rw Win32 d c p H).
    destruct (seek_rw Win32 d c p n H Hn) as (h & Hf & Hc & Hp & Hw & Hr).
    rewrite Hf, Hw.
    apply seek_rw with (p := n); [| assumption].
    exists (OS.set_content (resize (OS.position h) (OS.content h)) h).
    rewrite Hc, Hp; repeat split; assumption.
  - destruct H as (h & Hf & Hc & Hp & Hw & Hr); rewrite Hf, Hw.
    assert ((0 <=? n) = true) as -> by lia.
    assert ((n <=? OFFSET_MAX) = true) as -> by lia.
    subst c; simpl; eexists; repeat split; simpl; eauto.
Qed.

Lemma length_rw b d c p :
  rw_at d c p -> 0 <= p <= OFFSET_MAX -> size c <= OFFSET_MAX ->
  fst (FileStream.length b d) = size c /\ rw_at (snd (FileStream.length b d)) c p.
Proof.
  intros H Hp0 Hc0; pose proof (size_nonneg c) as Hs.
  unfold FileStream.length; destruct b.
  - destruct H as (h & Hf & Hc & Hp & Hw & Hr); rewrite Hf; simpl.
    split; [now rewrite Hc |].
    exists h; repeat split; assumption.
  - assert (rw_at (FileStream.seek Posix 0 End d) c (size c)) as Hend.
    { destruct H as (h & Hf & Hc & Hp & Hw & Hr).
      unfold FileStream.seek; rewrite Hf; simpl; rewrite Hc.
      assert ((size c + 0 <? 0) = false) as -> by lia.
      assert ((OFFSET_MAX <? size c + 0) = false) as -> by lia.
      simpl; eexists; repeat split; simpl; eauto; lia. }
    rewrite (tell_rw Posix d c p H).
    destruct H as (h & Hf & Hc & Hp & Hw & Hr); rewrite Hf; simpl.
    split; [now apply tell_rw with (c := c) |].
    now apply seek_rw with (p := size c).
Qed.

(** ** [removeBlock] on a block inside the file *)

Section RemoveBlock.

Context (b : Backend) (old : ByteVector) (start length0 : Z).
Hypothesis start_nonneg : 0 <= start.
Hypothesis length_nonneg : 0 <= length0.
Hypothesis block_inside : start + length0 <= size old.
Hypothesis old_fits : size old <= OFFSET_MAX.

Local Abbreviation new := (removed old start length0).
Local Abbreviation inv := (remove_inv old start length0).

Lemma size_removed : size new = size old - length0.
Proof. unfold removed; rewrite size_app, size_upto, size_from; lia. Qed.

Lemma from_removed i : start <= i -> from i new = from (i + length0) old.
Proof.
  intros; unfold removed.
  rewrite from_app_ge by (rewrite size_upto; lia).
  rewrite size_upto, from_from by lia.
  f_equal; lia.
Qed.

Lemma patched_removed_start : patched start new old = old.
Proof.
  unfold patched, removed.
  replace start with (size (upto start old)) at 1 by (rewrite size_upto; lia).
  rewrite upto_app_size; apply upto_from.
Qed.

Lemma remove_body_inv v :
  inv v ->
  let v' := FileStream.removeBlock_body b v in
  inv v'
  /\ (FileStream.rm_bytesRead v' <> 0 ->
      FileStream.rm_readPosition v < FileStream.rm_readPosition v' <= size old).
Proof.
  destruct v as [rp wp buffer br d]; unfold remove_inv; simpl.
  intros (p & Hrw & Hwp & Hrp & Hbuf & _ & Hdw).
  pose proof size_removed as Hsz.
  pose proof (size_nonneg buffer) as Hb0.
  pose proof (BufferSize_transfer b) as [_ Hmax].
  unfold FileStream.removeBlock_body; simpl.
  assert (Hseek : rw_at (FileStream.seek b rp Beginning d) (patched wp new old) rp)
    by (apply seek_rw with (p := p); [assumption | lia]).
  destruct (readFile_d_rw b _ _ _ buffer Hseek) as (d2 & -> & Hrw2); [lia |].
  assert (Hgot : mid rp (size buffer) (patched wp new old)
                 = mid wp (size buffer) new).
  { unfold mid; rewrite from_patched, from_removed by lia.
    now rewrite Hrp. }
  rewrite Hgot in *.
  set (got := mid wp (size buffer) new) in *.
  assert (Hn : size got = Z.min (size buffer) (size old - rp)).
  { unfold got; rewrite size_mid by lia; lia. }
  rewrite (to_offset_id (rp + size got)) by (unfold OFFSET_MAX in *; lia).
  rewrite (to_offset_id (wp + size got)) by (unfold OFFSET_MAX in *; lia).
  assert (Hsize : size (got ++ from (size got) buffer) = size buffer)
    by (rewrite size_app, size_from; lia).
  rewrite Hsize.
  assert (Hwrite : forall d3, rw_at d3 (patched wp new old) (rp + size got) ->
            rw_at (snd (FileStream.writeFile_d b got
                          (FileStream.seek b wp Beginning d3)))
                  (patched (wp + size got) new old) (wp + size got)).
  { intros d3 H3.
    assert (H4 : rw_at (FileStream.seek b wp Beginning d3) (patched wp new old) wp)
      by (eapply seek_rw; [eassumption | lia]).
    apply (writeFile_d_rw b _ _ _ got) in H4; [| lia].
    rewrite stored_within in H4 by (rewrite size_patched; lia).
    unfold got in H4 at 2; rewrite pwrite_patched in H4 by lia.
    exact H4. }
  destruct (Z.ltb_spec (size got) (size buffer)) as [Hshort | Hfull]; simpl.
  - rewrite resize_front.
    split; [| lia].
    exists (wp + size got); repeat split; try lia.
    apply Hwrite, clear_rw, Hrw2.
  - assert (Hnil : from (size got) buffer = [])
      by (apply from_all; lia).
    rewrite Hnil, app_nil_r.
    split; [| lia].
    exists (wp + size got); repeat split; try lia.
    apply Hwrite, Hrw2.
Qed.

Lemma remove_loop_spec fuel : forall v,
  inv v ->
  (FileStream.rm_bytesRead v <> 0 ->
   (Z.to_nat (size old - FileStream.rm_readPosition v) < fuel)%nat) ->
  exists v',
    FileStream.removeBlock_loop fuel b v = Some v'
    /\ inv v' /\ FileStream.rm_bytesRead v' = 0.
Proof.
  induction fuel as [| fuel IH]; intros v Hinv Hfuel; simpl.
  - destruct (Z.eqb_spec (FileStream.rm_bytesRead v) 0) as [H0 | Hn0].
    + exists v; auto.
    + specialize (Hfuel Hn0); lia.
  - destruct (Z.eqb_spec (FileStream.rm_bytesRead v) 0) as [H0 | Hn0].
    + exists v; auto.
    + destruct (remove_body_inv v Hinv) as [Hinv' Hstep].
      apply IH; [assumption |].
      intros Hn0'; specialize (Hstep Hn0'); specialize (Hfuel Hn0); lia.
Qed.

(** [removeBlock] returns: the loop ends with the write position at the
    length of the file without the block, and the truncation there leaves
    that file. *)
Lemma removeBlock_removed d p fuel :
  rw_at d old p ->
  (Z.to_nat (size old - (start + length0)) < fuel)%nat ->
  exists v p',
    FileStream.removeBlock_loop fuel b (remove_init b start length0 d) = Some v
    /\ FileStream.rm_writePosition v = size new
    /\ FileStream.removeBlock fuel b start length0 d
       = Some (FileStream.truncate b (FileStream.rm_writePosition v)
                                   (FileStream.rm_d v))
    /\ rw_at (FileStream.truncate b (FileStream.rm_writePosition v)
                                  (FileStream.rm_d v)) new p'
    /\ 0 <= p' <= OFFSET_MAX.
Proof.
  intros Hrw Hfuel; unfold FileStream.removeBlock.
  rewrite (rw_at_isOpen _ _ _ Hrw); simpl.
  pose proof size_removed as Hsz.
  fold (remove_init b start length0 d).
  assert (Hinit : remove_init b start length0 d
                  = FileStream.mkRemove (start + length0) start
                      (zeros (BufferSize b)) (to_size (-1)) d).
  { unfold remove_init.
    now rewrite (to_offset_id (start + length0)) by (unfold OFFSET_MAX in *; lia). }
  destruct (remove_loop_spec fuel (remove_init b start length0 d)) as (v' & Hloop & Hinv & Hdone).
  - rewrite Hinit; exists p; simpl.
    split; [now rewrite patched_removed_start |].
    split; [lia |]; split; [reflexivity |]; split; [| split].
    + left; rewrite size_zeros; pose proof (BufferSize_pos b); lia.
    + intros H; vm_compute in H; discriminate.
    + rewrite size_zeros by (pose proof (BufferSize_pos b); lia).
      apply BufferSize_transfer.
  - rewrite Hinit; simpl; intros _; exact Hfuel.
  - rewrite Hloop.
    destruct Hinv as (p' & Hrw' & Hwp & Hrp & _ & Hend & _).
    destruct (Hend Hdone) as [Hrp' Hp'].
    assert (Hwpe : FileStream.rm_writePosition v' = size new) by lia.
    exists v', p'.
    split; [reflexivity |]; split; [exact Hwpe |]; split; [reflexivity |].
    split; [| assumption].
    rewrite Hwpe in *.
    replace new with (resize (size new) (patched (size new) new old)) at 2.
    + apply truncate_rw; [assumption | lia | assumption].
    + pose proof (size_nonneg new).
      rewrite resize_upto by (rewrite size_patched; lia).
      rewrite upto_patched, upto_all by lia; reflexivity.
Qed.

End RemoveBlock.

(** ** The working buffer of [insert] *)

Section BufferLength.

Context (b : Backend) (delta : Z).
Hypothesis delta_pos : 0 < delta.
Hypothesis delta_fits : delta + BufferSize b <= SIZE_MAX.

Lemma insert_bufferLength_loop fuel : forall k,
  0 < k ->
  (k = 1 \/ (k - 1) * BufferSize b < delta) ->
  (Z.to_nat (delta - k * BufferSize b) < fuel)%nat ->
  exists k',
    FileStream.insert_bufferLength fuel b delta (k * BufferSize b)
    = Some (k' * BufferSize b)
    /\ 0 < k' /\ delta <= k' * BufferSize b
    /\ (k' = 1 \/ (k' - 1) * BufferSize b < delta).
Proof.
  pose proof (BufferSize_pos b) as HB.
  induction fuel as [| fuel IH]; intros k Hk Hmin Hfuel; [lia |].
  simpl.
  destruct (Z.gtb_spec delta (k * BufferSize b)) as [Hgt | Hle].
  - rewrite to_size_id by nia.
    replace (k * BufferSize b + BufferSize b) with ((k + 1) * BufferSize b) by ring.
    apply IH; [lia | right; replace (k + 1 - 1) with k by ring; lia | nia].
  - exists k; repeat split; auto; lia.
Qed.

(** The loop returns the least positive multiple of [BufferSize] that is
    not below [delta]. *)
Lemma insert_bufferLength_least fuel :
  (Z.to_nat delta < fuel)%nat ->
  exists bufferLength,
    FileStream.insert_bufferLength fuel b delta (BufferSize b) = Some bufferLength
    /\ 0 < bufferLength
    /\ bufferLength mod BufferSize b = 0
    /\ delta <= bufferLength
    /\ bufferLength < delta + BufferSize b
    /\ forall m, 0 < m -> m mod BufferSize b = 0 -> delta <= m -> bufferLength <= m.
Proof.
  pose proof (BufferSize_pos b) as HB; intros Hfuel.
  destruct (insert_bufferLength_loop fuel 1) as (k & Hk & Hpos & Hge & Hmin);
    [lia | now left | lia |].
  rewrite Z.mul_1_l in Hk.
  exists (k * BufferSize b); split; [exact Hk |].
  split; [nia |]; split; [apply Z.mod_mul; lia |]; split; [exact Hge |]; split.
  - destruct Hmin as [-> | Hmin]; nia.
  - intros m Hm Hmod Hdm.
    apply Z.mod_divide in Hmod; [| lia].
    destruct Hmod as [q ->].
    apply Z.mul_le_mono_nonneg_r; [lia |].
    assert (0 < q) by nia.
    destruct Hmin as [-> | Hmin]; [lia |].
    assert ((k - 1) * BufferSize b < q * BufferSize b) as Hlt by lia.
    apply Z.mul_lt_mono_pos_r in Hlt; lia.
Qed.

End BufferLength.

(** ** The growing case of [insert], on a region inside the file *)

Section Inserted.

Context (old data : ByteVector) (start replace : Z).
Hypothesis start_nonneg : 0 <= start.
Hypothesis replace_nonneg : 0 <= replace.
Hypothesis region_inside : start + replace <= size old.

Local Abbreviation new := (inserted old data start replace).

Lemma size_inserted : size new = size old + (size data - replace).
Proof.
  unfold inserted; rewrite !size_app, size_upto, size_from; lia.
Qed.

Lemma from_inserted i :
  start + replace <= i -> from (i + (size data - replace)) new = from i old.
Proof.
  intros; unfold inserted; rewrite app_assoc.
  rewrite from_app_ge by (rewrite size_app, size_upto; lia).
  rewrite size_app, size_upto, from_from by lia.
  f_equal; lia.
Qed.

Lemma mid_inserted_data : mid start (size data) new = data.
Proof.
  unfold inserted.
  replace start with (size (upto start old)) at 1 by (rewrite size_upto; lia).
  apply mid_app_size.
Qed.

Lemma patched_inserted_start : patched start new old = old.
Proof.
  unfold patched, inserted.
  replace start with (size (upto start old)) at 1 by (rewrite size_upto; lia).
  rewrite upto_app_size; apply upto_from.
Qed.

End Inserted.

Section InsertGrow.

Context (b : Backend) (old data : ByteVector) (start replace bufferLength : Z).
Hypothesis start_nonneg : 0 <= start.
Hypothesis replace_nonneg : 0 <= replace.
Hypothesis growing : replace < size data.
Hypothesis region_inside : start + replace <= size old.
Hypothesis buffer_covers : size data - replace <= bufferLength.
Hypothesis room : size old + 2 * bufferLength <= OFFSET_MAX.
Hypothesis transferred_whole : Z.max (size data) bufferLength <= transfer_max b.

Local Abbreviation new := (inserted old data start replace).
Local Abbreviation inv := (insert_inv old data start replace bufferLength).

Lemma insert_init_inv d p :
  rw_at d old p ->
  inv (FileStream.insert_init bufferLength data start replace d).
Proof.
  intros Hrw; pose proof (size_inserted old data start replace start_nonneg replace_nonneg
                region_inside) as Hsz.
  unfold FileStream.insert_init.
  rewrite to_offset_id by (unfold OFFSET_MAX in *; lia).
  exists p; simpl.
  rewrite patched_inserted_start, mid_inserted_data, size_zeros by lia.
  repeat split; auto; lia.
Qed.

(** What the first half of an iteration reads. *)
Lemma insert_read_inv v :
  inv v ->
  let rp := FileStream.in_readPosition v in
  let wp := FileStream.in_writePosition v in
  let got := mid rp (size (FileStream.in_aboutToOverwrite v)) old in
  exists d1,
    FileStream.insert_read b bufferLength v
    = (size got,
       FileStream.mkInsert (rp + bufferLength) wp (FileStream.in_buffer v) got d1)
    /\ rw_at d1 (patched wp new old) (rp + size got).
Proof.
  destruct v as [rp wp buffer ato d]; unfold insert_inv; simpl.
  intros (p & Hrw & Hwp & Hbuf & Hend & Hrp & Hle & Hato & Hfull & Hatob & Hbufb).
  unfold FileStream.insert_read; simpl.
  assert (Hseek : rw_at (FileStream.seek b rp Beginning d) (patched wp new old) rp)
    by (apply seek_rw with (p := p); [assumption | lia]).
  destruct (readFile_d_rw b _ _ _ ato Hseek) as (d2 & -> & Hrw2); [lia |].
  assert (Hgot : mid rp (size ato) (patched wp new old) = mid rp (size ato) old)
    by (unfold mid; now rewrite from_patched by lia).
  rewrite Hgot in *.
  rewrite resize_front.
  rewrite to_offset_id by (unfold OFFSET_MAX in *; lia).
  destruct (size (mid rp (size ato) old) <? bufferLength).
  - eexists; split; [reflexivity | now apply clear_rw].
  - eexists; split; [reflexivity | assumption].
Qed.

Lemma insert_body_inv v :
  inv v ->
  match FileStream.insert_body b bufferLength v with
  | inl d' => exists p', rw_at d' new p'
  | inr v' =>
      inv v'
      /\ FileStream.in_readPosition v < FileStream.in_readPosition v'
      /\ FileStream.in_readPosition v < size old
  end.
Proof.
  intros Hinv; unfold FileStream.insert_body.
  destruct (insert_read_inv v Hinv) as (d1 & -> & Hrw1).
  destruct v as [rp wp buffer ato d]; unfold insert_inv in Hinv.
  simpl in Hinv, Hrw1; simpl.
  destruct Hinv as (p & Hrw & Hwp & Hbuf & Hend & Hrp & Hle & Hato & Hfull & Hatob & Hbufb).
  pose proof (size_inserted old data start replace start_nonneg replace_nonneg
                region_inside) as Hsz.
  pose proof (size_nonneg buffer) as Hb0.
  set (got := mid rp (size ato) old) in *.
  assert (Hn : size got = Z.min (size ato) (Z.max 0 (size old - rp)))
    by (unfold got; rewrite size_mid by lia; lia).
  unfold FileStream.insert_write; simpl.
  assert (Hw : rw_at (FileStream.writeBlock b buffer
                        (FileStream.seek b wp Beginning d1))
                     (patched (wp + size buffer) new old) (wp + size buffer)).
  { assert (H4 : rw_at (FileStream.seek b wp Beginning d1)
                       (patched wp new old) wp)
      by (eapply seek_rw; [eassumption | unfold OFFSET_MAX in *; lia]).
    apply (writeBlock_rw b _ _ _ buffer) in H4; [| lia].
    rewrite stored_within in H4 by (rewrite size_patched; lia).
    rewrite Hbuf in H4 at 2; rewrite pwrite_patched in H4 by lia.
    now rewrite <- Hbuf in H4. }
  destruct (Z.eqb_spec (size got) 0) as [H0 | Hn0].
  - exists (wp + size buffer).
    rewrite patched_all in Hw by lia; exact Hw.
  - rewrite to_offset_id by (unfold OFFSET_MAX in *; lia).
    pose proof (size_nonneg got).
    split; [| simpl; lia].
    exists (wp + size buffer); simpl.
    split; [exact Hw |].
    split; [lia |].
    split.
    { replace (wp + size buffer) with (rp + (size data - replace)) by lia.
      unfold got, mid.
      rewrite from_inserted by lia.
      rewrite <- (upto_min (size (upto _ _))), size_upto by lia.
      rewrite !upto_min; reflexivity. }
    repeat split; lia.
Qed.

Lemma insert_loop_spec fuel : forall v,
  inv v ->
  (Z.to_nat (size old - FileStream.in_readPosition v) < fuel)%nat ->
  exists d' p',
    FileStream.insert_loop fuel b bufferLength v = Some d' /\ rw_at d' new p'.
Proof.
  induction fuel as [| fuel IH]; intros v Hinv Hfuel; [lia |].
  simpl.
  pose proof (insert_body_inv v Hinv) as Hbody.
  destruct (FileStream.insert_body b bufferLength v) as [d' | v'].
  - destruct Hbody as (p' & Hrw); exists d', p'; auto.
  - destruct Hbody as (Hinv' & Hlt & Hin).
    apply IH; [assumption | lia].
Qed.


End InsertGrow.


(** The growing case of [insert] as a whole. *)
Lemma insert_grow_inserted b d old p data start replace fuel :
  rw_at d old p ->
  0 <= start -> 0 <= replace -> replace < size data ->
  start + replace <= size old ->
  size old + 2 * (size data + BufferSize b) <= OFFSET_MAX ->
  size data + BufferSize b <= transfer_max b ->
  (Z.to_nat (size old + size data) < fuel)%nat ->
  exists d' p',
    FileStream.insert fuel b data start replace d = Some d'
    /\ rw_at d' (inserted old data start replace) p'.
Proof.
  intros Hrw Hs Hr Hg Hin Hroom Htr Hfuel.
  pose proof (BufferSize_pos b) as HB; pose proof (size_nonneg old) as Ho.
  unfold FileStream.insert.
  rewrite (rw_at_isOpen _ _ _ Hrw), (rw_at_readOnly _ _ _ Hrw); simpl.
  assert ((size data =? replace) = false) as -> by lia.
  assert ((size data <? replace) = false) as -> by lia.
  assert (Hfit : size data - replace + BufferSize b <= SIZE_MAX)
    by (unfold OFFSET_MAX, SIZE_MAX in *; lia).
  rewrite to_size_id by (unfold SIZE_MAX in *; lia).
  destruct (insert_bufferLength_least b (size data - replace) ltac:(lia) Hfit fuel)
    as (bl & -> & Hpos & _ & Hge & Hlt & _); [lia |].
  apply insert_loop_spec; try assumption; try lia.
  - eapply insert_init_inv; try eassumption; lia.
  - unfold FileStream.insert_init; simpl.
    rewrite to_offset_id by (unfold OFFSET_MAX in *; lia).
    lia.
Qed.

(** ** A negative seek, on each backend *)

Lemma seek_negative_win32 d h offset p :
  FileStream.file d = Some h ->
  FileStream.seek_target h offset p < 0 ->
  FileStream.seek Win32 offset p d = FileStream.set_file (OS.set_position 0 h) d.
Proof.
  intros Hf Hneg; unfold FileStream.seek; rewrite Hf.
  destruct (Z.ltb_spec (FileStream.seek_target h offset p) 0); [reflexivity | lia].
Qed.

Lemma seek_negative_posix d h offset p :
  FileStream.file d = Some h ->
  FileStream.seek_target h offset p < 0 ->
  FileStream.seek Posix offset p d = d.
Proof.
  intros Hf Hneg; unfold FileStream.seek; rewrite Hf.
  destruct (Z.ltb_spec (FileStream.seek_target h offset p) 0); [reflexivity | lia].
Qed.

(** ** [removeBlock] on a handle that may not be written

    No method changes the bytes behind such a handle: the backend refuses
    the writes and the truncation that [removeBlock] asks for. *)

Lemma debug_ro msg d c : ro_with d c -> ro_with (FileStream.debug msg d) c.
Proof. intros (h & Hf & Hc & Hw); exists h; auto. Qed.

Lemma seek_ro b d c offset p :
  ro_with d c -> ro_with (FileStream.seek b offset p d) c.
Proof.
  intros (h & Hf & Hc & Hw); unfold FileStream.seek; rewrite Hf.
  destruct b;
    repeat match goal with
           | |- context [if ?t then _ else _] => destruct t
           end;
    try (apply debug_ro); eexists; simpl; eauto.
Qed.

Lemma clear_ro b d c : ro_with d c -> ro_with (FileStream.clear b d) c.
Proof.
  intros (h & Hf & Hc & Hw); unfold FileStream.clear; rewrite Hf.
  destruct b; eexists; simpl; eauto.
Qed.

Lemma readFile_d_ro b d c buffer :
  ro_with d c -> ro_with (snd (FileStream.readFile_d b buffer d)) c.
Proof.
  intros (h & Hf & Hc & Hw); unfold FileStream.readFile_d, OS.readFile; rewrite Hf.
  eexists; simpl; eauto.
Qed.

Lemma writeFile_d_ro b d c buffer :
  ro_with d c -> ro_with (snd (FileStream.writeFile_d b buffer d)) c.
Proof.
  intros (h & Hf & Hc & Hw); unfold FileStream.writeFile_d, OS.writeFile.
  rewrite Hf, Hw.
  destruct buffer, b; eexists; simpl; eauto.
Qed.

Lemma truncate_ro b d c n :
  ro_with d c -> ro_with (FileStream.truncate b n d) c.
Proof.
  intros H; unfold FileStream.truncate; destruct b.
  - apply seek_ro.
    destruct (seek_ro Win32 d c n Beginning H) as (h & Hf & Hc & Hw).
    rewrite Hf, Hw; apply debug_ro; exists h; auto.
  - destruct H as (h & Hf & Hc & Hw); rewrite Hf, Hw; simpl.
    apply debug_ro; exists h; auto.
Qed.

Lemma removeBlock_body_ro b v c :
  ro_with (FileStream.rm_d v) c ->
  ro_with (FileStream.rm_d (FileStream.removeBlock_body b v)) c.
Proof.
  intros H; unfold FileStream.removeBlock_body.
  pose proof (readFile_d_ro b _ c (FileStream.rm_buffer v)
                (seek_ro b _ c (FileStream.rm_readPosition v) Beginning H)) as Hread.
  destruct (FileStream.readFile_d b (FileStream.rm_buffer v) _)
    as [[bytesRead buffer] d1]; simpl in Hread.
  destruct (bytesRead <? size buffer); simpl;
    apply writeFile_d_ro, seek_ro; [apply clear_ro |]; assumption.
Qed.

Lemma removeBlock_loop_ro b fuel : forall v v' c,
  ro_with (FileStream.rm_d v) c ->
  FileStream.removeBlock_loop fuel b v = Some v' ->
  ro_with (FileStream.rm_d v') c.
Proof.
  induction fuel as [| fuel IH]; intros v v' c H; simpl;
    destruct (FileStream.rm_bytesRead v =? 0); try discriminate;
    try (intros [= <-]; assumption).
  apply IH, removeBlock_body_ro, H.
Qed.

(** Whatever [start] and [length] are, if [removeBlock] returns on such a
    stream, the bytes of the file are the same afterwards. *)
Lemma removeBlock_ro b fuel start length0 d d' c :
  ro_with d c ->
  FileStream.removeBlock fuel b start length0 d = Some d' ->
  ro_with d' c.
Proof.
  intros H; unfold FileStream.removeBlock.
  destruct (FileStream.isOpen d); simpl; [| intros [= <-]; now apply debug_ro].
  destruct (FileStream.removeBlock_loop fuel b _) as [v |] eqn:Hloop;
    [| discriminate].
  intros [= <-]; apply truncate_ro.
  eapply removeBlock_loop_ro; [| exact Hloop]; exact H.
Qed.

(** ** Further facts used for the claims *)

Lemma rw_at_contents d c p : rw_at d c p -> contents d = c.
Proof. intros (h & Hf & Hc & _); unfold contents; now rewrite Hf. Qed.


(** The first half of a pass of the loop of [insert], whatever the
    variables, on a stream open for writing. *)
Lemma insert_read_rw b bufferLength v c p :
  rw_at (FileStream.in_d v) c p ->
  0 <= FileStream.in_readPosition v <= OFFSET_MAX ->
  let rp := FileStream.in_readPosition v in
  let got := mid rp (transfer_length b (FileStream.in_aboutToOverwrite v)) c in
  exists d1,
    FileStream.insert_read b bufferLength v
    = (size got,
       FileStream.mkInsert (to_offset (rp + bufferLength))
         (FileStream.in_writePosition v) (FileStream.in_buffer v) got d1)
    /\ rw_at d1 c (rp + size got).
Proof.
  destruct v as [rp wp buffer ato d]; simpl; intros Hrw Hrp.
  unfold FileStream.insert_read; simpl.
  destruct (seek_rw b d c p rp Hrw Hrp) as (h & Hf & Hc & Hp & Hw & Hr).
  unfold FileStream.readFile_d, OS.readFile; rewrite Hf, Hc, Hp.
  rewrite resize_front.
  set (got := mid rp (transfer_length b ato) c).
  assert (Hrw2 : forall e,
            rw_at (FileStream.set_file
                     (OS.mkHandle c (rp + size got) (OS.writable h) e (OS.err h))
                     (FileStream.seek b rp Beginning d)) c (rp + size got))
    by (intros e; eexists; repeat split; simpl; eauto).
  destruct (size got <? bufferLength).
  - eexists; split; [reflexivity | apply clear_rw, Hrw2].
  - eexists; split; [reflexivity | apply Hrw2].
Qed.



(** Opening read-only sets the flag. *)
Lemma open_readOnly disk fileName :
  FileStream.readOnly (FileStream.open disk fileName true) = true.
Proof.
  unfold FileStream.open; simpl.
  destruct (OS.openFile (disk fileName) true); reflexivity.
Qed.

(** The flag of a stream and the access mode of its handle agree when the
    stream is constructed. *)
Lemma open_mode disk fileName openReadOnly h :
  FileStream.file (FileStream.open disk fileName openReadOnly) = Some h ->
  OS.writable h = negb (FileStream.readOnly (FileStream.open disk fileName openReadOnly))
  /\ OS.position h = 0.
Proof.
  unfold FileStream.open, OS.openFile.
  destruct openReadOnly, (disk fileName) as [[c w] |]; simpl;
    try destruct w; simpl; intros [= <-]; split; reflexivity.
Qed.

(** [length()] on an open stream: the size of the file; the handle is the
    same afterwards up to the end-of-file indicator. *)
Lemma length_open b d h :
  FileStream.file d = Some h ->
  0 <= OS.position h <= OFFSET_MAX ->
  size (OS.content h) <= OFFSET_MAX ->
  exists e,
    FileStream.length b d
    = (size (OS.content h),
       FileStream.set_file
         (OS.mkHandle (OS.content h) (OS.position h) (OS.writable h) e (OS.err h))
         d).
Proof.
  intros Hf Hp Hc; pose proof (size_nonneg (OS.content h)) as Hs.
  destruct d as [f n r lg]; simpl in Hf; subst f.
  destruct h as [c pos w e er]; simpl in *.
  unfold FileStream.length; simpl; destruct b.
  - exists e; reflexivity.
  - unfold FileStream.tell, FileStream.seek; simpl.
    destruct (Z.ltb_spec (size c + 0) 0); [lia |].
    destruct (Z.ltb_spec OFFSET_MAX (size c + 0)); [lia |]; simpl.
    destruct (Z.ltb_spec pos 0); [lia |].
    destruct (Z.ltb_spec OFFSET_MAX pos); [lia |]; simpl.
    exists false; f_equal; lia.
Qed.

(** ** Runs of the model on the scenarios of the specification *)

(** Same size: the bytes are overwritten in place. *)
Example insert_same_size :
  option_map contents
    (FileStream.insert 5 Posix (ascii_bytes "123") 2 3
       (rw_stream (ascii_bytes "ABCDEFGHIJ") 0))
  = Some (ascii_bytes "AB123FGHIJ").
Proof. vm_compute; reflexivity. Qed.

(** Fewer bytes than replaced: [insert] writes them and calls
    [removeBlock] for the rest. *)
Example insert_shrinks :
  option_map contents
    (FileStream.insert 5 Win32 (ascii_bytes "12") 2 5
       (rw_stream (ascii_bytes "ABCDEFGHIJ") 0))
  = Some (ascii_bytes "AB12HIJ").
Proof. vm_compute; reflexivity. Qed.

(** 2500 bytes put in the place of 30 in a file of 5000, with buffers of
    1024 bytes: the working buffer has 3072 bytes and the loop makes
    several passes. *)
Example insert_across_buffers :
  FileStream.insert_bufferLength 9 Posix (2500 - 30) 1024 = Some 3072
  /\ option_map contents
       (FileStream.insert 9 Posix (sample 2500 3) 100 30 (rw_stream (sample 5000 0) 0))
     = Some (upto 100 (sample 5000 0) ++ sample 2500 3 ++ from 130 (sample 5000 0)).
Proof. split; vm_compute; reflexivity. Qed.

(** A growth above the chunk size with the Win32 buffers of 8192 bytes:
    9000 bytes more in a file of 4000.  The tail is the old tail, and
    [removeBlock] of the inserted bytes gives the old file back. *)
Example insert_9000_into_4000 :
  let old := sample 4000 0 in
  let data := sample (N.to_nat 9000) 5 in
  match FileStream.insert 30 Win32 data 1000 0 (rw_stream old 0) with
  | Some d1 =>
      contents d1 = upto 1000 old ++ data ++ from 1000 old
      /\ option_map contents (FileStream.removeBlock 30 Win32 1000 9000 d1) = Some old
  | None => False
  end.
Proof. vm_compute; split; reflexivity. Qed.

(** ** The claims *)





(** C3.  On a stream open for writing over a file [old] that contains
    the block, [removeBlock(start, length)] returns; its copy loop ends
    with the write position at [old.size() - length], and the result is
    the truncation of the file there; after it [length()] is
    [old.size() - length], the bytes before [start] are the old ones and
    the bytes from [start] on are the old bytes from [start + length] on. *)
Theorem removeBlock_correct :
  forall b d old p start length0 fuel,
    rw_at d old p ->
    0 <= start -> 0 <= length0 ->
    start + length0 <= size old ->
    size old <= OFFSET_MAX ->
    (Z.to_nat (size old) < fuel)%nat ->
    exists v d' new p',
      FileStream.removeBlock_loop fuel b (remove_init b start length0 d) = Some v
      /\ FileStream.rm_writePosition v = size old - length0
      /\ d' = FileStream.truncate b (FileStream.rm_writePosition v) (FileStream.rm_d v)
      /\ FileStream.removeBlock fuel b start length0 d = Some d'
      /\ rw_at d' new p'
      /\ fst (FileStream.length b d') = size old - length0
      /\ upto start new = upto start old
      /\ from start new = from (start + length0) old.
Proof.
  intros b d old p start length0 fuel Hrw Hs Hl Hin Hfit Hfuel.
  destruct (removeBlock_removed b old start length0 Hs Hl Hin Hfit d p fuel Hrw)
    as (v & p' & Hloop & Hwp & Hrm & Hrw' & Hp'); [lia |].
  pose proof (size_removed old start length0 Hs Hl Hin) as Hsz.
  exists v, (FileStream.truncate b (FileStream.rm_writePosition v) (FileStream.rm_d v)),
    (removed old start length0), p'.
  split; [exact Hloop |]; split; [lia |]; split; [reflexivity |].
  split; [exact Hrm |]; split; [exact Hrw' |]; split; [| split].
  - destruct (length_rw b _ _ _ Hrw' Hp') as [-> _]; lia.
  - unfold removed.
    replace start with (size (upto start old)) at 1 by (rewrite size_upto; lia).
    apply upto_app_size.
  - rewrite from_removed by lia; reflexivity.
Qed.

Lemma removeBlock_correct_witness :
  exists d',
    FileStream.removeBlock 20 Posix 2 5 (rw_stream (ascii_bytes "AB12345FGHIJ") 0)
    = Some d'
    /\ contents d' = ascii_bytes "ABFGHIJ"
    /\ fst (FileStream.length Posix d') = 7.
Proof.
  destruct (removeBlock_correct Posix (rw_stream (ascii_bytes "AB12345FGHIJ") 0)
              (ascii_bytes "AB12345FGHIJ") 0 2 5 20)
    as (v & d' & new & p' & _ & _ & _ & Hrm & Hrw & Hlen & Hup & Hfrom).
  - exists (OS.mkHandle (ascii_bytes "AB12345FGHIJ") 0 true false false).
    repeat split; reflexivity.
  - lia.
  - lia.
  - vm_compute; discriminate.
  - vm_compute; discriminate.
  - vm_compute; lia.
  - exists d'; split; [exact Hrm |]; split; [| exact Hlen].
    rewrite (rw_at_contents _ _ _ Hrw).
    rewrite <- (upto_from 2 new), Hup, Hfrom; reflexivity.
Defined.



(** C5: what the code does when the growth is a multiple of
    [BufferSize].  The comment above the loop asks for a buffer "longer
    than the difference", as the specification does; the loop
    [while(data.size() - replace > bufferLength)] stops at equality.  For
    1024 bytes inserted and none replaced, with chunks of 1024 bytes, the
    buffer has 1024 bytes, the difference itself, and not the 2048 of the
    smallest multiple strictly above it. *)
Theorem insert_bufferLength_equal_to_growth :
  FileStream.insert_bufferLength 5 Posix (to_size (size (zeros 1024) - 0))
    (BufferSize Posix) = Some 1024
  /\ ~ least_multiple_above (BufferSize Posix) (size (zeros 1024) - 0) 1024.
Proof.
  split; [vm_compute; reflexivity |].
  intros (_ & Hlt & _); vm_compute in Hlt; discriminate.
Qed.

(** What the loop that sizes the working buffer of [insert] returns in
    the growing case: the smallest multiple of [BufferSize] that is greater
    than or equal to the growth [data.size() - replace].  It is below the
    growth plus [BufferSize], and equal to the growth when the growth is
    itself a multiple of [BufferSize]. *)
Lemma insert_bufferLength_least_cover :
  forall b (data : ByteVector) replace fuel,
    0 <= replace < size data ->
    size data + BufferSize b <= SIZE_MAX ->
    (Z.to_nat (size data) < fuel)%nat ->
    exists bufferLength,
      FileStream.insert_bufferLength fuel b (to_size (size data - replace))
        (BufferSize b) = Some bufferLength
      /\ bufferLength mod BufferSize b = 0
      /\ size data - replace <= bufferLength < size data - replace + BufferSize b
      /\ (forall m, m mod BufferSize b = 0 -> size data - replace <= m ->
                    bufferLength <= m)
      /\ ((size data - replace) mod BufferSize b = 0 ->
          bufferLength = size data - replace).
Proof.
  intros b data replace fuel Hr Hfit Hfuel.
  rewrite to_size_id by (unfold SIZE_MAX in *; pose proof (BufferSize_pos b); lia).
  destruct (insert_bufferLength_least b (size data - replace)) with (fuel := fuel)
    as (bl & Hbl & Hpos & Hmod & Hge & Hlt & Hleast); try lia.
  exists bl; split; [exact Hbl |]; split; [exact Hmod |]; split; [lia |].
  split.
  - intros m Hm Hdm; apply Hleast; [lia | assumption | assumption].
  - intros Hd; specialize (Hleast (size data - replace)); lia.
Qed.

Lemma insert_bufferLength_least_cover_witness :
  exists bufferLength,
    FileStream.insert_bufferLength 8 Posix (to_size (size (ascii_bytes "12345") - 3))
      (BufferSize Posix) = Some bufferLength
    /\ bufferLength mod 1024 = 0
    /\ 2 <= bufferLength < 2 + 1024.
Proof.
  destruct (insert_bufferLength_least_cover Posix (ascii_bytes "12345") 3 8)
    as (bl & Hbl & Hmod & Hrange & _).
  - vm_compute; split; [discriminate | reflexivity].
  - vm_compute; discriminate.
  - vm_compute; lia.
  - exists bl; split; [exact Hbl |]; split; [exact Hmod | exact Hrange].
Defined.

(** C6: what the code does on a read-only stream.  [removeBlock] tests
    [isOpen()] only: on the stream opened read-only over "ABCDEFGHIJ",
    [removeBlock(2, 3)] runs its copy loop, hands the bytes read to
    [writeFile] and calls [truncate]; the backend refuses both, so the
    bytes stay, but the position is 7 afterwards and the message is the one
    of the failed truncation.  [insert], which tests [readOnly()], returns
    at once with its own message. *)
Theorem removeBlock_read_only_runs :
  let disk := fun _ : string => Some (OS.mkDisk (ascii_bytes "ABCDEFGHIJ") true) in
  let d := FileStream.open disk "a.bin" true in
  FileStream.readOnly d = true
  /\ FileStream.tell Posix d = 0
  /\ FileStream.removeBlock 5 Posix 2 3 d
     = Some (FileStream.mkStream
               (Some (OS.mkHandle (ascii_bytes "ABCDEFGHIJ") 7 false false false))
               "a.bin" true
               ["FileStream::truncate() -- Coundn't truncate the file."%string])
  /\ FileStream.insert 5 Posix (ascii_bytes "12345") 2 3 d
     = Some (FileStream.debug "FileStream::insert() -- read only file." d).
Proof. repeat split; vm_compute; reflexivity. Qed.

(** C7, as the specification words it, fails: with 1000 bytes left in
    a file of 3000, a request for 2500 bytes (more than [BufferSize] and
    more than what is left) is not clamped to the 1000 bytes left: the
    buffer is allocated with 2500 bytes. *)
Lemma readBlock_request_not_clamped_to_rest :
  fst (FileStream.readBlock_request Posix 2500 (ro_stream (zeros 3000) 2000)) = 2500
  /\ ~ clamped_to_rest Posix 2500 (ro_stream (zeros 3000) 2000).
Proof.
  split; [vm_compute; reflexivity |].
  intros H.
  assert (Hreq : fst (FileStream.readBlock_request Posix 2500
                        (ro_stream (zeros 3000) 2000)) = 1000)
    by (rewrite H; vm_compute; reflexivity).
  vm_compute in Hreq; discriminate.
Qed.

(** C7, amended.  Take an open stream that a client has reached
    through the constructor and the public methods, whose position is not
    negative and fits [offset_t], over a file whose length fits
    [offset_t]; and take a request [maxLength] that fits [offset_t] (at
    most 2^63 - 1) and that the backend transfers whole in one call (on
    Win32 the size of the buffer is cast to [DWORD]: at most 2^32 - 1).
    A request larger than [BufferSize] and larger than the length of the
    whole file is clamped to that length before the buffer is allocated,
    and no other request is changed.  [readBlock] returns exactly the
    bytes the file holds from the position on, at most [maxLength] of
    them (none at or past the end of the file); it hands nothing to
    [debug()], leaves the file as it is, and advances the position by the
    number of bytes returned, never beyond the end of the file unless it
    was there already. *)
Theorem readBlock_clamps_to_length :
  forall b d h maxLength,
    reached b d ->
    FileStream.file d = Some h ->
    0 <= OS.position h <= OFFSET_MAX ->
    size (OS.content h) <= OFFSET_MAX ->
    0 <= maxLength <= OFFSET_MAX ->
    maxLength <= transfer_max b ->
    let request := fst (FileStream.readBlock_request b maxLength d) in
    let result := fst (FileStream.readBlock b maxLength d) in
    let d' := snd (FileStream.readBlock b maxLength d) in
    request = (if (BufferSize b <? maxLength) && (size (OS.content h) <? maxLength)
               then size (OS.content h) else maxLength)
    /\ result = mid (OS.position h) maxLength (OS.content h)
    /\ size result <= maxLength
    /\ FileStream.debugLog d' = FileStream.debugLog d
    /\ contents d' = OS.content h
    /\ FileStream.tell b d' = OS.position h + size result
    /\ FileStream.tell b d' <= Z.max (OS.position h) (size (OS.content h)).
Proof.
  intros b d h maxLength _ Hf Hp Hc Hm Htr.
  pose proof (size_nonneg (OS.content h)) as Hs.
  destruct (length_open b d h Hf Hp Hc) as (e & Hlen).
  assert (Hreq : FileStream.readBlock_request b maxLength d
                 = (if (BufferSize b <? maxLength) && (size (OS.content h) <? maxLength)
                    then size (OS.content h) else maxLength,
                    FileStream.set_file
                      (OS.mkHandle (OS.content h) (OS.position h) (OS.writable h)
                                   e (OS.err h)) d)).
  { unfold FileStream.readBlock_request; rewrite Hlen.
    rewrite to_offset_id by (unfold OFFSET_MAX in *; lia).
    rewrite !Z.gtb_ltb.
    destruct ((BufferSize b <? maxLength) && (size (OS.content h) <? maxLength));
      [| reflexivity].
    rewrite to_size_id by (unfold OFFSET_MAX, SIZE_MAX in *; lia); reflexivity. }
  assert (Hmid : size (mid (OS.position h) maxLength (OS.content h)) <= maxLength
                 /\ OS.position h + size (mid (OS.position h) maxLength (OS.content h))
                    <= Z.max (OS.position h) (size (OS.content h)))
    by (rewrite size_mid by lia; lia).
  cbv zeta; rewrite Hreq; cbn [fst snd].
  split; [reflexivity |].
  unfold FileStream.readBlock, FileStream.isOpen; rewrite Hf; simpl.
  destruct (Z.eqb_spec maxLength 0) as [-> | Hnz].
  - (* nothing asked for *)
    simpl; unfold contents, FileStream.tell; rewrite Hf.
    change (mid (OS.position h) 0 (OS.content h)) with (@nil byte) in *.
    change (size []) with 0 in *.
    repeat split; try reflexivity; lia.
  - rewrite Hreq.
    set (request := if (BufferSize b <? maxLength) && (size (OS.content h) <? maxLength)
                    then size (OS.content h) else maxLength).
    assert (Hr0 : 0 <= request) by (unfold request; destruct (_ && _); lia).
    assert (Hsame : mid (OS.position h) request (OS.content h)
                    = mid (OS.position h) maxLength (OS.content h)).
    { unfold request.
      destruct (BufferSize b <? maxLength); simpl; [| reflexivity].
      destruct (Z.ltb_spec (size (OS.content h)) maxLength); [| reflexivity].
      unfold mid; rewrite !upto_all; [reflexivity | |]; rewrite size_from; lia. }
    assert (Hwhole : transfer_length b (zeros request) = request).
    { rewrite transfer_length_id; rewrite size_zeros by assumption; [reflexivity |].
      unfold request; destruct (_ && _) eqn:Hclamp; lia. }
    unfold FileStream.readFile_d, OS.readFile; rewrite Hwhole; simpl.
    rewrite Hsame, resize_front.
    unfold contents, FileStream.tell; simpl.
    repeat split; try reflexivity; lia.
Qed.

Lemma readBlock_clamps_to_length_witness :
  let d := ro_stream (ascii_bytes "ABCDEFGHIJ") 7 in
  fst (FileStream.readBlock Win32 5 d) = ascii_bytes "HIJ"
  /\ FileStream.tell Win32 (snd (FileStream.readBlock Win32 5 d)) = 10
  /\ FileStream.debugLog (snd (FileStream.readBlock Win32 5 d)) = [].
Proof.
  intros d.
  destruct (readBlock_clamps_to_length Win32 d
              (OS.mkHandle (ascii_bytes "ABCDEFGHIJ") 7 false false false) 5)
    as (_ & Hres & _ & Hlog & _ & Htell & _).
  - exists 0%nat, (fun _ => Some (OS.mkDisk (ascii_bytes "ABCDEFGHIJ") true)),
      "a.bin"%string, true, [CallSeek 7 Beginning].
    split; reflexivity.
  - reflexivity.
  - vm_compute; split; discriminate.
  - vm_compute; discriminate.
  - vm_compute; split; discriminate.
  - vm_compute; discriminate.
  - split; [rewrite Hres; reflexivity |]; split; [rewrite Htell, Hres; reflexivity |].
    rewrite Hlog; reflexivity.
Defined.

(** C8: what the code does with the C library.  [fseeko] refuses a
    negative offset and its result is not looked at: from position 2,
    [seek(-1, Beginning)] leaves the position at 2, where the Win32 branch
    moves it to 0. *)
Theorem seek_negative_posix_stays :
  FileStream.tell Posix
    (FileStream.seek Posix (-1) Beginning (rw_stream (ascii_bytes "ABC") 2)) = 2
  /\ FileStream.seek Posix (-1) Beginning (rw_stream (ascii_bytes "ABC") 2)
     = rw_stream (ascii_bytes "ABC") 2
  /\ FileStream.tell Win32
       (FileStream.seek Win32 (-1) Beginning (rw_stream (ascii_bytes "ABC") 2)) = 0.
Proof. repeat split. Qed.

(** C9.  On a stream whose [readOnly] flag is set, as it is on every
    stream opened read-only, [writeBlock(data)] only hands a message to
    [debug()]: the handle, and with it the bytes and the length of the
    file, the name and the flag are the same afterwards. *)
Theorem writeBlock_read_only_no_op :
  forall b d data,
    FileStream.readOnly d = true ->
    FileStream.writeBlock b data d
    = FileStream.debug
        (if FileStream.isOpen d
         then "FileStream::writeBlock() -- read only file."
         else "FileStream::writeBlock() -- invalid file.") d
    /\ FileStream.file (FileStream.writeBlock b data d) = FileStream.file d
    /\ contents (FileStream.writeBlock b data d) = contents d
    /\ size (contents (FileStream.writeBlock b data d)) = size (contents d).
Proof.
  intros b d data Hro.
  assert (H : FileStream.writeBlock b data d
              = FileStream.debug
                  (if FileStream.isOpen d
                   then "FileStream::writeBlock() -- read only file."
                   else "FileStream::writeBlock() -- invalid file.") d).
  { unfold FileStream.writeBlock; rewrite Hro.
    destruct (FileStream.isOpen d); reflexivity. }
  rewrite H; repeat split; reflexivity.
Qed.

Lemma writeBlock_read_only_no_op_witness :
  let disk := fun _ : string => Some (OS.mkDisk (ascii_bytes "ABCDEFGHIJ") true) in
  let d := FileStream.open disk "a.bin" true in
  contents d = ascii_bytes "ABCDEFGHIJ"
  /\ contents (FileStream.writeBlock Posix (ascii_bytes "12345") d)
     = ascii_bytes "ABCDEFGHIJ"
  /\ FileStream.debugLog (FileStream.writeBlock Posix (ascii_bytes "12345") d)
     = ["FileStream::writeBlock() -- read only file."%string].
Proof.
  intros disk d.
  destruct (writeBlock_read_only_no_op Posix d (ascii_bytes "12345"))
    as (Heq & _ & Hc & _).
  - apply open_readOnly.
  - split; [reflexivity |]; split; [rewrite Hc; reflexivity |].
    rewrite Heq; reflexivity.
Defined.

(** C10.  On a stream open for writing over a file [old], with [start]
    at or after the end of the file, the first read of
    [removeBlock(start, length)] yields no byte, the loop ends after that
    pass with the file as it was, and the truncation to [start] leaves the
    old bytes followed by zero bytes up to length [start]: a longer file
    when [start] is after the end. *)
Theorem removeBlock_past_end_extends :
  forall b d old p start length0 fuel,
    rw_at d old p ->
    size old <= start -> 0 <= length0 ->
    start + length0 <= OFFSET_MAX ->
    (0 < fuel)%nat ->
    let v1 := FileStream.removeBlock_body b (remove_init b start length0 d) in
    FileStream.rm_bytesRead v1 = 0
    /\ FileStream.removeBlock_loop fuel b (remove_init b start length0 d) = Some v1
    /\ contents (FileStream.rm_d v1) = old
    /\ FileStream.rm_writePosition v1 = start
    /\ exists d' p',
         FileStream.removeBlock fuel b start length0 d = Some d'
         /\ d' = FileStream.truncate b start (FileStream.rm_d v1)
         /\ rw_at d' (old ++ zeros (start - size old)) p'
         /\ size (contents d') = start.
Proof.
  intros b d old p start length0 fuel Hrw Hs Hl Hfit Hfuel.
  pose proof (BufferSize_pos b) as HB; pose proof (size_nonneg old) as Ho.
  assert (Hbody : exists d1,
             FileStream.removeBlock_body b (remove_init b start length0 d)
             = FileStream.mkRemove (start + length0) start [] 0 d1
             /\ rw_at d1 old start).
  { unfold FileStream.removeBlock_body, remove_init; simpl.
    rewrite (to_offset_id (start + length0)) by (unfold OFFSET_MAX in *; lia).
    assert (Hseek : rw_at (FileStream.seek b (start + length0) Beginning d) old
                          (start + length0))
      by (apply seek_rw with (p := p); [assumption | lia]).
    pose proof (BufferSize_transfer b) as [Hchunk Hmax].
    destruct (readFile_d_rw b _ _ _ (zeros (BufferSize b)) Hseek) as (d2 & -> & Hrw2);
      [rewrite size_zeros; lia |].
    assert (Hgot : mid (start + length0) (size (zeros (BufferSize b))) old = []).
    { unfold mid; rewrite from_all by lia; apply firstn_nil. }
    rewrite Hgot in *; simpl.
    change (size []) with 0 in *.
    rewrite from_0 by lia.
    rewrite !Z.add_0_r, !to_offset_id by (unfold OFFSET_MAX in *; lia).
    rewrite size_zeros by lia.
    assert ((0 <? BufferSize b) = true) as -> by lia.
    eexists; split; [reflexivity |].
    replace start with (start + size []) at 2 by (simpl; apply Z.add_0_r).
    apply (writeFile_d_rw b _ old start []);
      [| change (size []) with 0; unfold DWORD_MAX in *; lia].
    apply seek_rw with (p := start + length0 + 0);
      [| unfold OFFSET_MAX in *; lia].
    rewrite Z.add_0_r in *; now apply clear_rw. }
  destruct Hbody as (d1 & Hbody & Hrw1).
  cbv zeta; rewrite Hbody; simpl.
  split; [reflexivity |].
  assert (Hloop : FileStream.removeBlock_loop fuel b (remove_init b start length0 d)
                  = Some (FileStream.mkRemove (start + length0) start [] 0 d1)).
  { destruct fuel as [| fuel]; [lia |].
    simpl; rewrite Hbody.
    change (to_size (-1) =? 0) with false.
    destruct fuel; reflexivity. }
  split; [exact Hloop |].
  split; [exact (rw_at_contents _ _ _ Hrw1) |].
  split; [reflexivity |].
  assert (Htr : rw_at (FileStream.truncate b start d1)
                      (old ++ zeros (start - size old)) start).
  { rewrite <- resize_grow by lia.
    apply truncate_rw; [assumption | |]; unfold OFFSET_MAX in *; lia. }
  exists (FileStream.truncate b start d1), start.
  split; [| split; [reflexivity | split; [exact Htr |]]].
  - unfold FileStream.removeBlock.
    rewrite (rw_at_isOpen _ _ _ Hrw); simpl.
    fold (remove_init b start length0 d); rewrite Hloop; reflexivity.
  - rewrite (rw_at_contents _ _ _ Htr), size_app, size_zeros; lia.
Qed.

Lemma removeBlock_past_end_extends_witness :
  exists d',
    FileStream.removeBlock 1 Posix 12 3 (rw_stream (ascii_bytes "ABCDEFGHIJ") 0)
    = Some d'
    /\ contents d' = ascii_bytes "ABCDEFGHIJ" ++ [x00; x00]
    /\ size (contents d') = 12.
Proof.
  destruct (removeBlock_past_end_extends Posix
              (rw_stream (ascii_bytes "ABCDEFGHIJ") 0) (ascii_bytes "ABCDEFGHIJ")
              0 12 3 1)
    as (_ & _ & _ & _ & d' & p' & Hrm & _ & Hrw & Hsz).
  - exists (OS.mkHandle (ascii_bytes "ABCDEFGHIJ") 0 true false false).
    repeat split; reflexivity.
  - vm_compute; discriminate.
  - lia.
  - vm_compute; discriminate.
  - lia.
  - exists d'; split; [exact Hrm |]; split; [| exact Hsz].
    exact (rw_at_contents _ _ _ Hrw).
Defined.

(** ** What every method keeps *)

Lemma evolves_refl d : evolves d d.
Proof.
  unfold evolves; repeat split.
  destruct (FileStream.file d); [repeat split; auto | exact I].
Qed.

Lemma evolves_trans d1 d2 d3 : evolves d1 d2 -> evolves d2 d3 -> evolves d1 d3.
Proof.
  unfold evolves; intros (Hn1 & Hr1 & H1) (Hn2 & Hr2 & H2).
  split; [congruence |]; split; [congruence |].
  destruct (FileStream.file d1) as [h1 |], (FileStream.file d2) as [h2 |],
    (FileStream.file d3) as [h3 |]; try tauto.
  destruct H1 as (Hw1 & Hp1 & Hc1), H2 as (Hw2 & Hp2 & Hc2).
  split; [congruence |]; split; [auto |].
  intros Hw; rewrite Hc2, Hc1; congruence.
Qed.

Lemma evolves_debug msg d : evolves d (FileStream.debug msg d).
Proof.
  unfold evolves; simpl; repeat split.
  destruct (FileStream.file d); [repeat split; auto | exact I].
Qed.

Lemma evolves_set_file d h h' :
  FileStream.file d = Some h ->
  OS.writable h' = OS.writable h ->
  (0 <= OS.position h -> 0 <= OS.position h') ->
  (OS.writable h = false -> OS.content h' = OS.content h) ->
  evolves d (FileStream.set_file h' d).
Proof.
  intros Hf Hw Hp Hc; unfold evolves; simpl; rewrite Hf; auto.
Qed.

Lemma evolves_seek b offset p d : evolves d (FileStream.seek b offset p d).
Proof.
  unfold FileStream.seek.
  destruct (FileStream.file d) as [h |] eqn:Hf; [| apply evolves_debug].
  destruct b.
  - destruct (Z.ltb_spec (FileStream.seek_target h offset p) 0).
    + apply (evolves_set_file d h); simpl; auto; lia.
    + destruct (OFFSET_MAX <? FileStream.seek_target h offset p);
        [apply evolves_debug |].
      apply (evolves_set_file d h); simpl; auto.
  - destruct (Z.ltb_spec (FileStream.seek_target h offset p) 0); simpl;
      [apply evolves_refl |].
    destruct (OFFSET_MAX <? FileStream.seek_target h offset p);
      [apply evolves_refl |].
    apply (evolves_set_file d h); simpl; auto.
Qed.

Lemma evolves_clear b d : evolves d (FileStream.clear b d).
Proof.
  unfold FileStream.clear.
  destruct b; [apply evolves_refl |].
  destruct (FileStream.file d) as [h |] eqn:Hf; [| apply evolves_refl].
  apply (evolves_set_file d h); simpl; auto.
Qed.

Lemma evolves_readFile_d b buffer d :
  evolves d (snd (FileStream.readFile_d b buffer d)).
Proof.
  unfold FileStream.readFile_d, OS.readFile.
  destruct (FileStream.file d) as [h |] eqn:Hf; [| apply evolves_refl].
  apply (evolves_set_file d h); simpl; auto.
  pose proof (size_nonneg (mid (OS.position h) (transfer_length b buffer)
                             (OS.content h))); lia.
Qed.

Lemma evolves_writeFile_d b buffer d :
  evolves d (snd (FileStream.writeFile_d b buffer d)).
Proof.
  unfold FileStream.writeFile_d, OS.writeFile.
  destruct (FileStream.file d) as [h |] eqn:Hf; [| apply evolves_refl].
  destruct (OS.writable h) eqn:Hw.
  - destruct (upto (transfer_length b buffer) buffer) as [| x written]; simpl.
    + apply (evolves_set_file d h); auto.
    + apply (evolves_set_file d h); simpl; auto; [| congruence].
      pose proof (size_nonneg (x :: written)); lia.
  - destruct buffer, b; simpl; apply (evolves_set_file d h); simpl; auto.
Qed.

Lemma evolves_writeBlock b data d : evolves d (FileStream.writeBlock b data d).
Proof.
  unfold FileStream.writeBlock.
  destruct (FileStream.isOpen d); simpl; [| apply evolves_debug].
  destruct (FileStream.readOnly d); [apply evolves_debug |].
  apply evolves_writeFile_d.
Qed.

Lemma evolves_length b d : evolves d (snd (FileStream.length b d)).
Proof.
  unfold FileStream.length.
  destruct (FileStream.file d) as [h |] eqn:Hf; [| apply evolves_debug].
  destruct b; simpl; [apply evolves_refl |].
  eapply evolves_trans; apply evolves_seek.
Qed.

Lemma evolves_readBlock b length0 d : evolves d (snd (FileStream.readBlock b length0 d)).
Proof.
  unfold FileStream.readBlock.
  destruct (FileStream.isOpen d); simpl; [| apply evolves_debug].
  destruct (length0 =? 0); [apply evolves_refl |].
  unfold FileStream.readBlock_request.
  pose proof (evolves_length b d) as Hlen.
  destruct (FileStream.length b d) as [streamLength d1]; simpl in Hlen.
  destruct ((length0 >? BufferSize b) && (to_offset length0 >? streamLength)).
  - pose proof (evolves_readFile_d b (zeros (to_size streamLength)) d1) as Hread.
    destruct (FileStream.readFile_d b (zeros (to_size streamLength)) d1)
      as [[count buffer] d2]; simpl in *.
    eapply evolves_trans; eassumption.
  - pose proof (evolves_readFile_d b (zeros length0) d1) as Hread.
    destruct (FileStream.readFile_d b (zeros length0) d1)
      as [[count buffer] d2]; simpl in *.
    eapply evolves_trans; eassumption.
Qed.

Lemma evolves_truncate b length0 d : evolves d (FileStream.truncate b length0 d).
Proof.
  unfold FileStream.truncate; destruct b.
  - eapply evolves_trans; [| apply evolves_seek].
    eapply evolves_trans; [apply (evolves_seek Win32 length0 Beginning) |].
    destruct (FileStream.file (FileStream.seek Win32 length0 Beginning d))
      as [h |] eqn:Hf; [| apply evolves_refl].
    destruct (OS.writable h) eqn:Hw; [| apply evolves_debug].
    apply (evolves_set_file _ h); simpl; auto; congruence.
  - destruct (FileStream.file d) as [h |] eqn:Hf; [| apply evolves_refl].
    destruct (OS.writable h) eqn:Hw; simpl; [| apply evolves_debug].
    destruct ((0 <=? length0) && (length0 <=? OFFSET_MAX)); [| apply evolves_debug].
    apply (evolves_set_file _ h); simpl; auto; congruence.
Qed.

Lemma evolves_removeBlock_body b v :
  evolves (FileStream.rm_d v) (FileStream.rm_d (FileStream.removeBlock_body b v)).
Proof.
  unfold FileStream.removeBlock_body.
  pose proof (evolves_seek b (FileStream.rm_readPosition v) Beginning
                (FileStream.rm_d v)) as H1.
  pose proof (evolves_readFile_d b (FileStream.rm_buffer v)
                (FileStream.seek b (FileStream.rm_readPosition v) Beginning
                   (FileStream.rm_d v))) as H2.
  destruct (FileStream.readFile_d b (FileStream.rm_buffer v) _)
    as [[bytesRead buffer] d1]; simpl in H2.
  pose proof (evolves_trans _ _ _ H1 H2) as H12.
  destruct (bytesRead <? size buffer); simpl.
  - eapply evolves_trans; [exact H12 |].
    eapply evolves_trans; [apply (evolves_clear b) |].
    eapply evolves_trans; [apply evolves_seek | apply evolves_writeFile_d].
  - eapply evolves_trans; [exact H12 |].
    eapply evolves_trans; [apply evolves_seek | apply evolves_writeFile_d].
Qed.

Lemma evolves_removeBlock_loop b fuel : forall v v',
  FileStream.removeBlock_loop fuel b v = Some v' ->
  evolves (FileStream.rm_d v) (FileStream.rm_d v').
Proof.
  induction fuel as [| fuel IH]; intros v v'; simpl;
    destruct (FileStream.rm_bytesRead v =? 0); try discriminate;
    try (intros [= <-]; apply evolves_refl).
  intros Hloop; eapply evolves_trans; [apply (evolves_removeBlock_body b) |].
  now apply IH.
Qed.

Lemma evolves_removeBlock b fuel start length0 d d' :
  FileStream.removeBlock fuel b start length0 d = Some d' -> evolves d d'.
Proof.
  unfold FileStream.removeBlock.
  destruct (FileStream.isOpen d); simpl; [| intros [= <-]; apply evolves_debug].
  destruct (FileStream.removeBlock_loop fuel b _) as [v |] eqn:Hloop;
    [| discriminate].
  intros [= <-].
  eapply evolves_trans; [| apply evolves_truncate].
  apply (evolves_removeBlock_loop b fuel _ v Hloop).
Qed.

Lemma evolves_insert_body b bufferLength v :
  match FileStream.insert_body b bufferLength v with
  | inl d' => evolves (FileStream.in_d v) d'
  | inr v' => evolves (FileStream.in_d v) (FileStream.in_d v')
  end.
Proof.
  unfold FileStream.insert_body, FileStream.insert_read.
  pose proof (evolves_seek b (FileStream.in_readPosition v) Beginning
                (FileStream.in_d v)) as H1.
  pose proof (evolves_readFile_d b (FileStream.in_aboutToOverwrite v)
                (FileStream.seek b (FileStream.in_readPosition v) Beginning
                   (FileStream.in_d v))) as H2.
  destruct (FileStream.readFile_d b (FileStream.in_aboutToOverwrite v) _)
    as [[bytesRead ato] d1]; simpl in H2.
  pose proof (evolves_trans _ _ _ H1 H2) as H12.
  assert (H3 : evolves (FileStream.in_d v)
                       (if bytesRead <? bufferLength then FileStream.clear b d1 else d1)).
  { destruct (bytesRead <? bufferLength); [| exact H12].
    eapply evolves_trans; [exact H12 | apply evolves_clear]. }
  unfold FileStream.insert_write; simpl.
  assert (H4 : evolves (FileStream.in_d v)
                 (FileStream.writeBlock b (FileStream.in_buffer v)
                    (FileStream.seek b (FileStream.in_writePosition v) Beginning
                       (if bytesRead <? bufferLength
                        then FileStream.clear b d1 else d1)))).
  { eapply evolves_trans; [exact H3 |].
    eapply evolves_trans; [apply evolves_seek | apply evolves_writeBlock]. }
  destruct (bytesRead =? 0); simpl; exact H4.
Qed.

Lemma evolves_insert_loop b bufferLength fuel : forall v d',
  FileStream.insert_loop fuel b bufferLength v = Some d' ->
  evolves (FileStream.in_d v) d'.
Proof.
  induction fuel as [| fuel IH]; intros v d'; simpl; [discriminate |].
  pose proof (evolves_insert_body b bufferLength v) as Hbody.
  destruct (FileStream.insert_body b bufferLength v) as [d1 | v1].
  - now intros [= <-].
  - intros Hloop; eapply evolves_trans; [exact Hbody | now apply IH].
Qed.

Lemma evolves_insert b fuel data start replace d d' :
  FileStream.insert fuel b data start replace d = Some d' -> evolves d d'.
Proof.
  unfold FileStream.insert.
  destruct (FileStream.isOpen d); simpl; [| intros [= <-]; apply evolves_debug].
  destruct (FileStream.readOnly d); [intros [= <-]; apply evolves_debug |].
  destruct (size data =? replace).
  { intros [= <-].
    eapply evolves_trans; [apply evolves_seek | apply evolves_writeBlock]. }
  destruct (size data <? replace).
  { intros Hrm; apply evolves_removeBlock in Hrm.
    eapply evolves_trans; [| exact Hrm].
    eapply evolves_trans; [apply evolves_seek | apply evolves_writeBlock]. }
  destruct (FileStream.insert_bufferLength fuel b _ _) as [bufferLength |];
    [| discriminate].
  intros Hloop; apply evolves_insert_loop in Hloop; exact Hloop.
Qed.

Lemma evolves_run b fuel c d d' : run fuel b c d = Some d' -> evolves d d'.
Proof.
  destruct c; simpl; try (intros [= <-]).
  - apply evolves_seek.
  - apply evolves_clear.
  - apply evolves_length.
  - apply evolves_readBlock.
  - apply evolves_writeBlock.
  - apply evolves_truncate.
  - apply evolves_insert.
  - apply evolves_removeBlock.
Qed.

Lemma evolves_run_all b fuel cs : forall d d',
  run_all fuel b cs d = Some d' -> evolves d d'.
Proof.
  induction cs as [| c cs IH]; intros d d'; simpl.
  - intros [= <-]; apply evolves_refl.
  - destruct (run fuel b c d) as [d1 |] eqn:Hrun; [| discriminate].
    intros Hall; eapply evolves_trans; [apply (evolves_run _ _ _ _ _ Hrun) |].
    now apply IH.
Qed.

Lemma evolves_well_formed d d' : evolves d d' -> well_formed d -> well_formed d'.
Proof.
  unfold evolves, well_formed; intros (_ & Hr & H).
  destruct (FileStream.file d) as [h |], (FileStream.file d') as [h' |];
    try tauto; [| congruence].
  destruct H as (Hw & Hp & _); intros (Hwf & Hpos).
  split; [congruence | auto].
Qed.

Lemma evolves_isOpen d d' : evolves d d' -> FileStream.isOpen d' = FileStream.isOpen d.
Proof.
  unfold evolves, FileStream.isOpen; intros (_ & _ & H).
  destruct (FileStream.file d), (FileStream.file d'); tauto.
Qed.

Lemma evolves_read_only_contents d d' :
  evolves d d' -> well_formed d -> FileStream.readOnly d = true ->
  contents d' = contents d.
Proof.
  unfold evolves, well_formed, contents; intros (_ & _ & H).
  destruct (FileStream.file d) as [h |], (FileStream.file d') as [h' |];
    try tauto.
  destruct H as (_ & _ & Hc); intros (Hw & _) Hro.
  apply Hc; rewrite Hw, Hro; reflexivity.
Qed.

(** ** The methods on any open stream *)

Lemma rw_at_open_at d c p : rw_at d c p -> open_at d c p true.
Proof. intros (h & Hf & Hc & Hp & Hw & _); exists h; auto. Qed.

Lemma open_at_contents d c p w : open_at d c p w -> contents d = c.
Proof. intros (h & Hf & Hc & _); unfold contents; now rewrite Hf. Qed.

Lemma open_at_tell b d c p w : open_at d c p w -> FileStream.tell b d = p.
Proof. intros (h & Hf & _ & Hp & _); unfold FileStream.tell; now rewrite Hf. Qed.

(** A seek to a target that an [offset_t] holds. *)
Lemma seek_open_at b d c p w offset o :
  open_at d c p w ->
  let target := match o with
                | Beginning => offset
                | Current => p + offset
                | End => size c + offset
                end in
  0 <= target <= OFFSET_MAX ->
  open_at (FileStream.seek b offset o d) c target w
  /\ FileStream.debugLog (FileStream.seek b offset o d) = FileStream.debugLog d.
Proof.
  intros (h & Hf & Hc & Hp & Hw) target Ht.
  assert (Htarget : FileStream.seek_target h offset o = target)
    by (unfold FileStream.seek_target, target; destruct o; congruence).
  unfold FileStream.seek; rewrite Hf, Htarget.
  destruct (Z.ltb_spec target 0); [lia |].
  destruct (Z.ltb_spec OFFSET_MAX target); [lia |].
  destruct b; simpl; (split; [| reflexivity]);
    eexists; repeat split; simpl; eauto.
Qed.

Lemma length_open_at b d c p w :
  open_at d c p w ->
  0 <= p <= OFFSET_MAX -> size c <= OFFSET_MAX ->
  fst (FileStream.length b d) = size c
  /\ open_at (snd (FileStream.length b d)) c p w
  /\ FileStream.debugLog (snd (FileStream.length b d)) = FileStream.debugLog d.
Proof.
  intros (h & Hf & Hc & Hp & Hw) Hp0 Hc0; subst c p w.
  destruct (length_open b d h Hf Hp0 Hc0) as (e & ->); simpl.
  split; [reflexivity |]; split; [| reflexivity].
  eexists; repeat split; simpl; eauto.
Qed.

Lemma readBlock_open_at b d c p w n :
  open_at d c p w ->
  0 <= p <= OFFSET_MAX -> size c <= OFFSET_MAX -> 0 <= n <= OFFSET_MAX ->
  n <= transfer_max b ->
  fst (FileStream.readBlock b n d) = mid p n c
  /\ open_at (snd (FileStream.readBlock b n d)) c (p + size (mid p n c)) w
  /\ FileStream.debugLog (snd (FileStream.readBlock b n d)) = FileStream.debugLog d.
Proof.
  intros Hat Hp0 Hc0 Hn Htr; pose proof Hat as (h & Hf & Hc & Hp & Hw).
  pose proof (size_nonneg c) as Hs.
  unfold FileStream.readBlock, FileStream.isOpen; rewrite Hf; simpl.
  destruct (Z.eqb_spec n 0) as [-> | Hnz].
  - change (mid p 0 c) with (@nil byte); change (size []) with 0.
    rewrite Z.add_0_r; simpl; auto.
  - unfold FileStream.readBlock_request.
    destruct (length_open_at b d c p w Hat Hp0 Hc0) as (Hlen & Hat1 & Hlog1).
    destruct (FileStream.length b d) as [streamLength d1]; simpl in Hlen, Hat1, Hlog1.
    subst streamLength.
    rewrite to_offset_id by (unfold OFFSET_MAX in *; lia).
    set (request := if (n >? BufferSize b) && (n >? size c)
                    then to_size (size c) else n).
    assert (Hreq : 0 <= request <= n
                   /\ mid p request c = mid p n c).
    { unfold request.
      destruct (n >? BufferSize b); simpl; [| split; [lia | reflexivity]].
      destruct (Z.gtb_spec n (size c)); [| split; [lia | reflexivity]].
      rewrite to_size_id by (unfold OFFSET_MAX, SIZE_MAX in *; lia).
      split; [lia |].
      unfold mid; rewrite !upto_all; [reflexivity | |]; rewrite size_from; lia. }
    destruct Hreq as (Hr0 & Hsame).
    assert (Hwhole : transfer_length b (zeros request) = request)
      by (rewrite transfer_length_id; rewrite size_zeros by lia; [reflexivity | lia]).
    replace (if (n >? BufferSize b) && (n >? size c)
             then (to_size (size c), d1) else (n, d1)) with (request, d1)
      by (unfold request; destruct ((n >? BufferSize b) && (n >? size c)); reflexivity).
    destruct Hat1 as (h1 & Hf1 & Hc1 & Hp1 & Hw1).
    unfold FileStream.readFile_d, OS.readFile; rewrite Hf1, Hc1, Hp1, Hwhole; simpl.
    rewrite Hsame, resize_front.
    split; [reflexivity |]; split; [| exact Hlog1].
    eexists; repeat split; simpl; eauto.
Qed.

(** ** Further properties of the stream *)

(** X1.  The constructor.  When the file is absent the stream is not open,
    its flag is set and one message says so.  Otherwise it is open at
    position 0 on the bytes of the file, without a message; the handle may be
    written exactly when read-only was not asked for and writing is
    permitted, and the flag is set in every other case (asked for, or
    fallen back to).  In all cases the stream is well formed. *)
Theorem open_outcome :
  forall disk fileName openReadOnly,
    let d := FileStream.open disk fileName openReadOnly in
    well_formed d
    /\ FileStream.name d = fileName
    /\ match disk fileName with
       | None =>
           FileStream.isOpen d = false
           /\ FileStream.readOnly d = true
           /\ FileStream.debugLog d = [("Could not open file " ++ fileName)%string]
       | Some f =>
           open_at d (OS.bytes f) 0 (negb openReadOnly && OS.mayWrite f)
           /\ FileStream.readOnly d = negb (negb openReadOnly && OS.mayWrite f)
           /\ FileStream.debugLog d = []
       end.
Proof.
  intros disk fileName openReadOnly; cbv zeta.
  unfold FileStream.open, OS.openFile, well_formed, open_at, FileStream.isOpen.
  destruct (disk fileName) as [[c w] |], openReadOnly; simpl;
    try destruct w; simpl; repeat split; try lia;
    eexists; repeat split; reflexivity.
Qed.

(** X2.  Whatever methods a client calls, one after the other, on a well
    formed stream: the stream stays well formed (the flag remains the
    opposite of the access mode of the handle, the file pointer is never
    negative), and its name, its flag and whether it is open never
    change. *)
Theorem well_formed_kept :
  forall b fuel cs d d',
    well_formed d ->
    run_all fuel b cs d = Some d' ->
    well_formed d'
    /\ FileStream.name d' = FileStream.name d
    /\ FileStream.readOnly d' = FileStream.readOnly d
    /\ FileStream.isOpen d' = FileStream.isOpen d.
Proof.
  intros b fuel cs d d' Hwf Hrun.
  pose proof (evolves_run_all b fuel cs d d' Hrun) as Hev.
  split; [exact (evolves_well_formed _ _ Hev Hwf) |].
  split; [apply Hev |]; split; [apply Hev | exact (evolves_isOpen _ _ Hev)].
Qed.

Lemma well_formed_kept_witness :
  let disk := fun _ : string => Some (OS.mkDisk (ascii_bytes "ABCDEFGHIJ") true) in
  let d := FileStream.open disk "a.bin" false in
  exists d',
    run_all 20 Posix
      [CallSeek (-3) End; CallReadBlock 2; CallInsert (ascii_bytes "12345") 2 3;
       CallSeek (-1) Beginning; CallRemoveBlock 0 4; CallTruncate 3] d = Some d'
    /\ well_formed d'
    /\ FileStream.readOnly d' = false.
Proof.
  intros disk d.
  eexists; split; [vm_compute; reflexivity |].
  match goal with
  | |- well_formed ?d' /\ _ =>
      destruct (well_formed_kept Posix 20
                  [CallSeek (-3) End; CallReadBlock 2;
                   CallInsert (ascii_bytes "12345") 2 3;
                   CallSeek (-1) Beginning; CallRemoveBlock 0 4; CallTruncate 3]
                  d d') as (Hwf & _ & Hro & _)
  end.
  - apply (open_outcome disk "a.bin" false).
  - vm_compute; reflexivity.
  - split; [exact Hwf | rewrite Hro; reflexivity].
Defined.

(** X3.  A well formed stream whose [readOnly] flag is set never changes
    the bytes of its file, whatever methods are called on it, [removeBlock]
    and [truncate] included: the flag means that the handle may not be
    written, and the backend refuses what those two ask for. *)
Theorem read_only_never_changes_file :
  forall b fuel cs d d',
    well_formed d ->
    FileStream.readOnly d = true ->
    run_all fuel b cs d = Some d' ->
    contents d' = contents d.
Proof.
  intros b fuel cs d d' Hwf Hro Hrun.
  exact (evolves_read_only_contents _ _ (evolves_run_all b fuel cs d d' Hrun) Hwf Hro).
Qed.

Lemma read_only_never_changes_file_witness :
  let disk := fun _ : string => Some (OS.mkDisk (ascii_bytes "ABCDEFGHIJ") false) in
  let d := FileStream.open disk "a.bin" false in
  exists d',
    run_all 20 Win32
      [CallWriteBlock (ascii_bytes "xy"); CallRemoveBlock 2 3; CallTruncate 1;
       CallInsert (ascii_bytes "12345") 2 3] d = Some d'
    /\ contents d' = ascii_bytes "ABCDEFGHIJ".
Proof.
  intros disk d.
  eexists; split; [vm_compute; reflexivity |].
  match goal with
  | |- contents ?d' = _ =>
      rewrite (read_only_never_changes_file Win32 20
                 [CallWriteBlock (ascii_bytes "xy"); CallRemoveBlock 2 3;
                  CallTruncate 1; CallInsert (ascii_bytes "12345") 2 3] d d')
  end.
  - reflexivity.
  - apply (open_outcome disk "a.bin" false).
  - reflexivity.
  - vm_compute; reflexivity.
Defined.

(** X4.  On a stream that is not open, [readBlock], [writeBlock],
    [insert], [removeBlock], [seek] and [length] do nothing but hand one
    message to [debug()]: [readBlock] returns no byte, [length] returns 0,
    [insert] and [removeBlock] return without entering their loops (no
    fuel is needed). *)
Theorem closed_stream_is_inert :
  forall b d,
    FileStream.isOpen d = false ->
    (forall n, FileStream.readBlock b n d
               = ([], FileStream.debug "FileStream::readBlock() -- invalid file." d))
    /\ (forall data, FileStream.writeBlock b data d
                     = FileStream.debug "FileStream::writeBlock() -- invalid file." d)
    /\ (forall fuel data start replace,
           FileStream.insert fuel b data start replace d
           = Some (FileStream.debug "FileStream::insert() -- invalid file." d))
    /\ (forall fuel start length0,
           FileStream.removeBlock fuel b start length0 d
           = Some (FileStream.debug "FileStream::removeBlock() -- invalid file." d))
    /\ (forall offset p, FileStream.seek b offset p d
                         = FileStream.debug "FileStream::seek() -- invalid file." d)
    /\ FileStream.length b d
       = (0, FileStream.debug "FileStream::length() -- invalid file." d).
Proof.
  intros b d Hclosed.
  unfold FileStream.readBlock, FileStream.writeBlock, FileStream.insert,
    FileStream.removeBlock, FileStream.seek, FileStream.length.
  rewrite Hclosed; unfold FileStream.isOpen in Hclosed.
  destruct (FileStream.file d); [discriminate |].
  repeat split.
Qed.

Lemma closed_stream_is_inert_witness :
  let d := FileStream.open (fun _ => None) "gone.bin" false in
  fst (FileStream.readBlock Posix 10 d) = []
  /\ FileStream.insert 0 Posix (ascii_bytes "12345") 2 3 d
     = Some (FileStream.debug "FileStream::insert() -- invalid file." d)
  /\ fst (FileStream.length Posix d) = 0.
Proof.
  intros d.
  destruct (closed_stream_is_inert Posix d) as (Hrd & _ & Hins & _ & _ & Hlen).
  - reflexivity.
  - rewrite Hrd, Hins, Hlen; repeat split.
Defined.

(** X6.  On an open stream [length()] returns the number of bytes of the
    file and leaves the file pointer where it was, also on the backend
    that finds the length by seeking to the end and back; the file and the
    messages are the same. *)
Theorem length_keeps_position :
  forall b d c p w,
    open_at d c p w ->
    0 <= p <= OFFSET_MAX -> size c <= OFFSET_MAX ->
    fst (FileStream.length b d) = size c
    /\ FileStream.tell b (snd (FileStream.length b d)) = p
    /\ contents (snd (FileStream.length b d)) = c
    /\ FileStream.debugLog (snd (FileStream.length b d)) = FileStream.debugLog d.
Proof.
  intros b d c p w Hat Hp Hc.
  destruct (length_open_at b d c p w Hat Hp Hc) as (Hlen & Hat' & Hlog).
  split; [exact Hlen |]; split; [exact (open_at_tell b _ _ _ _ Hat') |].
  split; [exact (open_at_contents _ _ _ _ Hat') | exact Hlog].
Qed.

Lemma length_keeps_position_witness :
  fst (FileStream.length Posix (ro_stream (ascii_bytes "ABCDEFGHIJ") 4)) = 10
  /\ FileStream.tell Posix
       (snd (FileStream.length Posix (ro_stream (ascii_bytes "ABCDEFGHIJ") 4))) = 4.
Proof.
  destruct (length_keeps_position Posix (ro_stream (ascii_bytes "ABCDEFGHIJ") 4)
              (ascii_bytes "ABCDEFGHIJ") 4 false) as (Hlen & Htell & _).
  - eexists; repeat split; reflexivity.
  - vm_compute; split; discriminate.
  - vm_compute; discriminate.
  - split; [exact Hlen | exact Htell].
Defined.

(** ** Writes and reads *)

Lemma pwrite_resize p data c :
  OS.pwrite p data c = resize p c ++ data ++ from (p + size data) c.
Proof. unfold OS.pwrite, resize, upto; now rewrite <- app_assoc. Qed.

Lemma pwrite_within p data c :
  0 <= p <= size c -> OS.pwrite p data c = upto p c ++ data ++ from (p + size data) c.
Proof. intros; rewrite pwrite_resize, resize_upto by lia; reflexivity. Qed.

Lemma size_stored p data c :
  0 <= p -> data <> [] -> size (stored p data c) = Z.max (size c) (p + size data).
Proof.
  intros Hp Hd; pose proof (size_nonneg data); pose proof (size_nonneg c).
  destruct data as [| x data]; [congruence |].
  unfold stored; rewrite pwrite_resize, !size_app, size_resize, size_from by lia.
  lia.
Qed.

Lemma mid_stored p data c : 0 <= p -> mid p (size data) (stored p data c) = data.
Proof.
  intros Hp; destruct data as [| x data]; [reflexivity |].
  unfold stored; rewrite pwrite_resize.
  rewrite <- (size_resize p c Hp) at 1; apply mid_app_size.
Qed.

Lemma mid_then_mid p n m c :
  0 <= p -> 0 <= n -> 0 <= m ->
  mid p n c ++ mid (p + size (mid p n c)) m c = mid p (n + m) c.
Proof.
  intros Hp Hn Hm; pose proof (size_nonneg c).
  destruct (Z.le_gt_cases n (size c - p)) as [Hfull | Hshort].
  - rewrite size_mid by lia; rewrite Z.min_l by lia.
    unfold mid at 3; rewrite upto_add by lia.
    f_equal; unfold mid; now rewrite from_from by lia.
  - rewrite size_mid by lia.
    unfold mid; rewrite (upto_all n), (upto_all (n + m))
      by (rewrite size_from; lia).
    rewrite (from_all (p + _)) by lia.
    unfold upto; rewrite firstn_nil; apply app_nil_r.
Qed.

(** X7.  On a stream open for writing, [writeBlock(data)] stores [data] at
    the file pointer and moves the pointer behind it: the bytes before are
    the old ones (zero bytes where the pointer was past the end of the
    file), the bytes behind are the old ones; writing no byte leaves the
    file as it is.  A seek back to where the pointer was and
    [readBlock(data.size())] return [data].  This is for [data] that the
    backend transfers whole in one call (on Win32 the size is cast to
    [DWORD]: below 2^32 bytes). *)
Theorem writeBlock_then_readBlock :
  forall b d c p data,
    rw_at d c p ->
    0 <= p ->
    Z.max (size c) (p + size data) <= OFFSET_MAX ->
    size data <= transfer_max b ->
    let d1 := FileStream.writeBlock b data d in
    FileStream.tell b d1 = p + size data
    /\ (data = [] -> contents d1 = c)
    /\ (data <> [] -> contents d1 = resize p c ++ data ++ from (p + size data) c)
    /\ fst (FileStream.readBlock b (size data) (FileStream.seek b p Beginning d1))
       = data.
Proof.
  intros b d c p data Hrw Hp Hfit Htr; cbv zeta.
  pose proof (size_nonneg data) as Hd; pose proof (size_nonneg c) as Hc.
  pose proof (writeBlock_rw b d c p data Hrw Htr) as Hw.
  split; [exact (tell_rw b _ _ _ Hw) |].
  rewrite (rw_at_contents _ _ _ Hw).
  split; [intros ->; reflexivity |].
  split.
  - intros Hne; destruct data; [congruence |].
    unfold stored; apply pwrite_resize.
  - assert (Hs : size (stored p data c) <= OFFSET_MAX).
    { destruct data as [| x data]; [simpl; lia |].
      rewrite size_stored by (auto; discriminate); lia. }
    assert (Hseek : rw_at (FileStream.seek b p Beginning (FileStream.writeBlock b data d))
                          (stored p data c) p)
      by (eapply seek_rw; [exact Hw | lia]).
    destruct (readBlock_open_at b _ _ p true (size data) (rw_at_open_at _ _ _ Hseek))
      as (-> & _); try lia.
    now apply mid_stored.
Qed.

Lemma writeBlock_then_readBlock_witness :
  let d1 := FileStream.writeBlock Win32 (ascii_bytes "xyz")
              (rw_stream (ascii_bytes "ABCDE") 7) in
  contents d1 = ascii_bytes "ABCDE" ++ [x00; x00] ++ ascii_bytes "xyz"
  /\ fst (FileStream.readBlock Win32 3 (FileStream.seek Win32 7 Beginning d1))
     = ascii_bytes "xyz".
Proof.
  intros d1.
  destruct (writeBlock_then_readBlock Win32 (rw_stream (ascii_bytes "ABCDE") 7)
              (ascii_bytes "ABCDE") 7 (ascii_bytes "xyz"))
    as (_ & _ & Hc & Hread).
  - exists (OS.mkHandle (ascii_bytes "ABCDE") 7 true false false).
    repeat split; reflexivity.
  - lia.
  - vm_compute; discriminate.
  - vm_compute; discriminate.
  - split; [| exact Hread].
    unfold d1; rewrite Hc by discriminate; reflexivity.
Defined.

(** X8.  Two reads in a row return, one after the other, what one read of
    the sum of the two lengths returns, and leave the file pointer at the
    same place; once a read has come up short the next one returns no
    byte.  This is for lengths whose sum the backend transfers in one
    call (on Win32 the size of the buffer is cast to [DWORD]: below 2^32
    bytes). *)
Theorem readBlock_twice :
  forall b d c p w n m,
    open_at d c p w ->
    0 <= p <= OFFSET_MAX -> size c <= OFFSET_MAX ->
    0 <= n -> 0 <= m -> n + m <= OFFSET_MAX ->
    n + m <= transfer_max b ->
    let first := FileStream.readBlock b n d in
    let second := FileStream.readBlock b m (snd first) in
    let both := FileStream.readBlock b (n + m) d in
    fst first ++ fst second = fst both
    /\ FileStream.tell b (snd second) = FileStream.tell b (snd both)
    /\ (size (fst first) < n -> fst second = []).
Proof.
  intros b d c p w n m Hat Hp Hc Hn Hm Hnm Htr; cbv zeta.
  pose proof (size_nonneg c) as Hs.
  destruct (readBlock_open_at b d c p w n Hat) as (H1 & Hat1 & _); try lia.
  assert (Hk : size (mid p n c) = Z.min n (Z.max 0 (size c - p)))
    by (apply size_mid; lia).
  destruct (readBlock_open_at b _ c (p + size (mid p n c)) w m Hat1)
    as (H2 & Hat2 & _); try lia.
  destruct (readBlock_open_at b d c p w (n + m) Hat) as (H3 & Hat3 & _); try lia.
  rewrite H1, H2, H3.
  rewrite (open_at_tell b _ _ _ _ Hat2), (open_at_tell b _ _ _ _ Hat3).
  pose proof (mid_then_mid p n m c ltac:(lia) Hn Hm) as Hmid.
  split; [exact Hmid |]; split.
  - rewrite <- Hmid, size_app; lia.
  - intros Hshort.
    unfold mid at 1; rewrite from_all by lia.
    unfold upto; apply firstn_nil.
Qed.

Lemma readBlock_twice_witness :
  let d := ro_stream (ascii_bytes "ABCDEFGHIJ") 6 in
  fst (FileStream.readBlock Posix 3 d) = ascii_bytes "GHI"
  /\ fst (FileStream.readBlock Posix 5 (snd (FileStream.readBlock Posix 3 d)))
     = ascii_bytes "J"
  /\ fst (FileStream.readBlock Posix 8 d) = ascii_bytes "GHIJ".
Proof.
  intros d.
  destruct (readBlock_twice Posix d (ascii_bytes "ABCDEFGHIJ") 6 false 3 5)
    as (Hcat & _ & _).
  - eexists; repeat split; reflexivity.
  - vm_compute; split; discriminate.
  - vm_compute; discriminate.
  - lia.
  - lia.
  - vm_compute; discriminate.
  - vm_compute; discriminate.
  - split; [reflexivity |]; split; [reflexivity |].
    change (FileStream.readBlock Posix 8 d)
      with (FileStream.readBlock Posix (3 + 5) d).
    rewrite <- Hcat; reflexivity.
Defined.

(** ** The other cases of [insert] and [removeBlock] *)

(** The case [data.size() == replace] of [insert]. *)
Lemma insert_same_size_inserted b d old p data start fuel :
  rw_at d old p ->
  0 <= start -> start + size data <= size old -> size old <= OFFSET_MAX ->
  size data <= transfer_max b ->
  exists d',
    FileStream.insert fuel b data start (size data) d = Some d'
    /\ rw_at d' (inserted old data start (size data)) (start + size data).
Proof.
  intros Hrw Hs Hin Hfit Htr; pose proof (size_nonneg data) as Hd.
  unfold FileStream.insert.
  rewrite (rw_at_isOpen _ _ _ Hrw), (rw_at_readOnly _ _ _ Hrw), Z.eqb_refl; simpl.
  eexists; split; [reflexivity |].
  unfold inserted; rewrite <- pwrite_within, <- stored_within by lia.
  apply writeBlock_rw; [| exact Htr].
  apply seek_rw with (p := p); [assumption | lia].
Qed.

(** The case [data.size() < replace] of [insert]. *)
Lemma insert_shrink_inserted b d old p data start replace fuel :
  rw_at d old p ->
  0 <= start -> size data < replace ->
  start + replace <= size old -> size old <= OFFSET_MAX ->
  size data <= transfer_max b ->
  (Z.to_nat (size old) < fuel)%nat ->
  exists d' p',
    FileStream.insert fuel b data start replace d = Some d'
    /\ rw_at d' (inserted old data start replace) p'.
Proof.
  intros Hrw Hs Hlt Hin Hfit Htr Hfuel; pose proof (size_nonneg data) as Hd.
  unfold FileStream.insert.
  rewrite (rw_at_isOpen _ _ _ Hrw), (rw_at_readOnly _ _ _ Hrw); simpl.
  assert ((size data =? replace) = false) as -> by lia.
  assert ((size data <? replace) = true) as -> by lia.
  rewrite to_offset_id, to_size_id by (unfold OFFSET_MAX, SIZE_MAX in *; lia).
  set (c1 := upto start old ++ data ++ from (start + size data) old).
  assert (Hw : rw_at (FileStream.writeBlock b data (FileStream.seek b start Beginning d))
                     c1 (start + size data)).
  { unfold c1; rewrite <- pwrite_within, <- stored_within by lia.
    apply writeBlock_rw; [| exact Htr].
    apply seek_rw with (p := p); [assumption | lia]. }
  assert (Hup : size (upto start old ++ data) = start + size data)
    by (rewrite size_app, size_upto; lia).
  assert (Hsz : size c1 = size old).
  { unfold c1; rewrite app_assoc, size_app, Hup, size_from; lia. }
  destruct (removeBlock_removed b c1 (start + size data) (replace - size data))
    with (d := FileStream.writeBlock b data (FileStream.seek b start Beginning d))
         (p := start + size data) (fuel := fuel)
    as (v & p' & _ & _ & -> & Hrm & _); try lia; try assumption.
  do 2 eexists; split; [reflexivity |].
  replace (inserted old data start replace)
    with (removed c1 (start + size data) (replace - size data)); [exact Hrm |].
  unfold removed, inserted, c1.
  rewrite app_assoc, <- Hup at 1.
  rewrite upto_app_size, <- app_assoc; do 2 f_equal.
  rewrite app_assoc, from_app_ge by lia.
  rewrite Hup, from_from by lia.
  f_equal; lia.
Qed.

(** [insert] in its three cases, on a region inside the file. *)
Lemma insert_inserted b d old p data start replace fuel :
  rw_at d old p ->
  0 <= start -> 0 <= replace ->
  start + replace <= size old ->
  size old + 2 * (size data + BufferSize b) <= OFFSET_MAX ->
  size data + BufferSize b <= transfer_max b ->
  (Z.to_nat (size old + size data) < fuel)%nat ->
  exists d' p',
    FileStream.insert fuel b data start replace d = Some d'
    /\ rw_at d' (inserted old data start replace) p'.
Proof.
  intros Hrw Hs Hr Hin Hroom Htr Hfuel.
  pose proof (size_nonneg data) as Hd; pose proof (BufferSize_pos b) as HB.
  destruct (Z.lt_trichotomy (size data) replace) as [Hlt | [Heq | Hgt]].
  - apply insert_shrink_inserted with (p := p); try assumption; lia.
  - subst replace.
    destruct (insert_same_size_inserted b d old p data start fuel)
      as (d' & Hins & Hrw'); try assumption; try lia.
    exists d', (start + size data); auto.
  - apply insert_grow_inserted with (p := p); try assumption; lia.
Qed.

(** X10.  With as many bytes in [data] as are replaced, [insert] writes
    them in place and returns without entering a loop (with any fuel): the
    file has the same length, the bytes at [start] are [data], all others
    are the old ones, and the file pointer is behind the bytes written.
    This is for [data] that the backend transfers whole in one call (on Win32 the size is cast to
    [DWORD]: below 2^32 bytes). *)
Theorem insert_same_size_in_place :
  forall b d old p data start fuel,
    rw_at d old p ->
    0 <= start -> start + size data <= size old -> size old <= OFFSET_MAX ->
    size data <= transfer_max b ->
    exists d',
      FileStream.insert fuel b data start (size data) d = Some d'
      /\ size (contents d') = size old
      /\ upto start (contents d') = upto start old
      /\ mid start (size data) (contents d') = data
      /\ from (start + size data) (contents d') = from (start + size data) old
      /\ FileStream.tell b d' = start + size data.
Proof.
  intros b d old p data start fuel Hrw Hs Hin Hfit Htr.
  pose proof (size_nonneg data) as Hd.
  destruct (insert_same_size_inserted b d old p data start fuel)
    as (d' & Hins & Hrw'); try assumption.
  exists d'; split; [exact Hins |].
  rewrite (rw_at_contents _ _ _ Hrw'), (tell_rw b _ _ _ Hrw').
  assert (Hup : size (upto start old) = start) by (rewrite size_upto; lia).
  split; [rewrite size_inserted by lia; lia |].
  split; [unfold inserted; rewrite <- Hup at 1; apply upto_app_size |].
  split; [apply mid_inserted_data; lia |].
  split; [| reflexivity].
  replace (start + size data) with (start + size data + (size data - size data))
    at 1 by lia.
  apply from_inserted; lia.
Qed.

Lemma insert_same_size_in_place_witness :
  exists d',
    FileStream.insert 0 Win32 (ascii_bytes "123") 2 3
      (rw_stream (ascii_bytes "ABCDEFGHIJ") 0) = Some d'
    /\ contents d' = ascii_bytes "AB123FGHIJ".
Proof.
  destruct (insert_same_size_in_place Win32 (rw_stream (ascii_bytes "ABCDEFGHIJ") 0)
              (ascii_bytes "ABCDEFGHIJ") 0 (ascii_bytes "123") 2 0)
    as (d' & Hins & _ & Hup & Hmid & Hfrom & _).
  - exists (OS.mkHandle (ascii_bytes "ABCDEFGHIJ") 0 true false false).
    repeat split; reflexivity.
  - lia.
  - vm_compute; discriminate.
  - vm_compute; discriminate.
  - vm_compute; discriminate.
  - exists d'; split; [exact Hins |].
    rewrite <- (upto_from 2 (contents d')), Hup.
    rewrite <- (upto_from 3 (from 2 (contents d'))).
    change (upto 3 (from 2 (contents d')))
      with (mid 2 (size (ascii_bytes "123")) (contents d')).
    rewrite Hmid, from_from by lia.
    change (2 + 3) with (2 + size (ascii_bytes "123")).
    rewrite Hfrom; reflexivity.
Defined.

(** X11.  With fewer bytes in [data] than are replaced, on a region
    inside the file, [insert] writes [data] and has [removeBlock] take out
    the rest of the region: the file is shorter by
    [replace - data.size()], the bytes before [start] are the old ones,
    [data] follows, and then the old bytes from [start + replace] on.
    This is for [data] that the backend transfers whole in one call (on Win32 the size is cast to
    [DWORD]: below 2^32 bytes). *)
Theorem insert_shrink_correct :
  forall b d old p data start replace fuel,
    rw_at d old p ->
    0 <= start -> size data < replace ->
    start + replace <= size old -> size old <= OFFSET_MAX ->
    size data <= transfer_max b ->
    (Z.to_nat (size old) < fuel)%nat ->
    exists d',
      FileStream.insert fuel b data start replace d = Some d'
      /\ contents d' = upto start old ++ data ++ from (start + replace) old
      /\ size (contents d') = size old - (replace - size data).
Proof.
  intros b d old p data start replace fuel Hrw Hs Hlt Hin Hfit Htr Hfuel.
  pose proof (size_nonneg data) as Hd.
  destruct (insert_shrink_inserted b d old p data start replace fuel)
    as (d' & p' & Hins & Hrw'); try assumption.
  exists d'; split; [exact Hins |].
  rewrite (rw_at_contents _ _ _ Hrw').
  split; [reflexivity |].
  unfold inserted; rewrite !size_app, size_upto, size_from; lia.
Qed.

Lemma insert_shrink_correct_witness :
  exists d',
    FileStream.insert 20 Win32 (ascii_bytes "12") 2 5
      (rw_stream (ascii_bytes "ABCDEFGHIJ") 0) = Some d'
    /\ contents d' = ascii_bytes "AB12HIJ".
Proof.
  destruct (insert_shrink_correct Win32 (rw_stream (ascii_bytes "ABCDEFGHIJ") 0)
              (ascii_bytes "ABCDEFGHIJ") 0 (ascii_bytes "12") 2 5 20)
    as (d' & Hins & Hc & _).
  - exists (OS.mkHandle (ascii_bytes "ABCDEFGHIJ") 0 true false false).
    repeat split; reflexivity.
  - lia.
  - vm_compute; reflexivity.
  - vm_compute; discriminate.
  - vm_compute; discriminate.
  - vm_compute; discriminate.
  - vm_compute; lia.
  - exists d'; split; [exact Hins | rewrite Hc; reflexivity].
Defined.

(** X12.  On a region inside the file, whichever of its three cases
    runs, [insert(data, start, replace)] leaves the same bytes as
    [removeBlock(start, replace)] followed by [insert(data, start, 0)]:
    the old bytes before [start], [data], and the old bytes from
    [start + replace] on.  This is for [data] and a working buffer that
    the backend transfers whole in one call (on Win32 their sizes are
    cast to [DWORD]: below 2^32 bytes). *)
Theorem insert_is_removeBlock_then_insert :
  forall b d old p data start replace fuel,
    rw_at d old p ->
    0 <= start -> 0 <= replace ->
    start + replace <= size old ->
    size old + 2 * (size data + BufferSize b) <= OFFSET_MAX ->
    size data + BufferSize b <= transfer_max b ->
    (Z.to_nat (size old + size data) < fuel)%nat ->
    exists d1 d2 d3,
      FileStream.insert fuel b data start replace d = Some d1
      /\ FileStream.removeBlock fuel b start replace d = Some d2
      /\ FileStream.insert fuel b data start 0 d2 = Some d3
      /\ contents d1 = upto start old ++ data ++ from (start + replace) old
      /\ contents d3 = contents d1.
Proof.
  intros b d old p data start replace fuel Hrw Hs Hr Hin Hroom Htr Hfuel.
  pose proof (size_nonneg data) as Hd; pose proof (BufferSize_pos b) as HB.
  destruct (insert_inserted b d old p data start replace fuel)
    as (d1 & p1 & Hins1 & Hrw1); try assumption.
  destruct (removeBlock_removed b old start replace) with (d := d) (p := p)
      (fuel := fuel) as (v & p2 & _ & _ & Hrm & Hrw2 & _); try assumption; try lia.
  pose proof (size_removed old start replace Hs Hr Hin) as Hsz.
  destruct (insert_inserted b _ (removed old start replace) p2 data start 0 fuel Hrw2)
    as (d3 & p3 & Hins3 & Hrw3); try lia.
  exists d1, (FileStream.truncate b (FileStream.rm_writePosition v) (FileStream.rm_d v)), d3.
  split; [exact Hins1 |]; split; [exact Hrm |]; split; [exact Hins3 |].
  rewrite (rw_at_contents _ _ _ Hrw1), (rw_at_contents _ _ _ Hrw3).
  split; [reflexivity |].
  unfold inserted.
  rewrite Z.add_0_r, from_removed by lia.
  f_equal.
  unfold removed.
  replace start with (size (upto start old)) at 1 by (rewrite size_upto; lia).
  apply upto_app_size.
Qed.

Lemma insert_is_removeBlock_then_insert_witness :
  exists d1 d2 d3,
    FileStream.insert 20 Win32 (ascii_bytes "12345") 2 3
      (rw_stream (ascii_bytes "ABCDEFGHIJ") 0) = Some d1
    /\ FileStream.removeBlock 20 Win32 2 3
         (rw_stream (ascii_bytes "ABCDEFGHIJ") 0) = Some d2
    /\ FileStream.insert 20 Win32 (ascii_bytes "12345") 2 0 d2 = Some d3
    /\ contents d3 = ascii_bytes "AB12345FGHIJ"
    /\ contents d1 = ascii_bytes "AB12345FGHIJ".
Proof.
  destruct (insert_is_removeBlock_then_insert Win32
              (rw_stream (ascii_bytes "ABCDEFGHIJ") 0) (ascii_bytes "ABCDEFGHIJ") 0
              (ascii_bytes "12345") 2 3 20)
    as (d1 & d2 & d3 & H1 & H2 & H3 & Hc1 & Hc3).
  - exists (OS.mkHandle (ascii_bytes "ABCDEFGHIJ") 0 true false false).
    repeat split; reflexivity.
  - lia.
  - lia.
  - vm_compute; discriminate.
  - vm_compute; discriminate.
  - vm_compute; discriminate.
  - vm_compute; lia.
  - exists d1, d2, d3.
    split; [exact H1 |]; split; [exact H2 |]; split; [exact H3 |].
    split; [rewrite Hc3, Hc1; reflexivity | rewrite Hc1; reflexivity].
Defined.

(** The first pass of the loop of [removeBlock] when the block ends at or
    after the end of the file: nothing is read, nothing is written. *)
Lemma removeBlock_first_pass_empty b d old p start length0 :
  rw_at d old p ->
  0 <= start -> 0 <= length0 ->
  size old <= start + length0 <= OFFSET_MAX ->
  exists d1,
    FileStream.removeBlock_body b (remove_init b start length0 d)
    = FileStream.mkRemove (start + length0) start [] 0 d1
    /\ rw_at d1 old start.
Proof.
  intros Hrw Hs Hl Hout.
  pose proof (BufferSize_pos b) as HB; pose proof (size_nonneg old) as Ho.
  unfold FileStream.removeBlock_body, remove_init; simpl.
  rewrite (to_offset_id (start + length0)) by (unfold OFFSET_MAX in *; lia).
  assert (Hseek : rw_at (FileStream.seek b (start + length0) Beginning d) old
                        (start + length0))
    by (apply seek_rw with (p := p); [assumption | lia]).
  pose proof (BufferSize_transfer b) as [Hchunk Hmax].
  destruct (readFile_d_rw b _ _ _ (zeros (BufferSize b)) Hseek) as (d2 & -> & Hrw2);
    [rewrite size_zeros; lia |].
  assert (Hgot : mid (start + length0) (size (zeros (BufferSize b))) old = []).
  { unfold mid; rewrite from_all by lia; apply firstn_nil. }
  rewrite Hgot in *; simpl.
  change (size []) with 0 in *.
  rewrite from_0 by lia.
  rewrite !Z.add_0_r, !to_offset_id by (unfold OFFSET_MAX in *; lia).
  rewrite size_zeros by lia.
  assert ((0 <? BufferSize b) = true) as -> by lia.
  eexists; split; [reflexivity |].
  replace start with (start + size []) at 2 by (simpl; apply Z.add_0_r).
  apply (writeFile_d_rw b _ old start []);
    [| change (size []) with 0; unfold DWORD_MAX in *; lia].
  apply seek_rw with (p := start + length0 + 0);
    [| unfold OFFSET_MAX in *; lia].
  rewrite Z.add_0_r in *; now apply clear_rw.
Qed.

(** X13.  When the block to remove starts inside the file and runs up to
    or past its end, [removeBlock] copies nothing and cuts the file at
    [start]: the first [start] bytes are left, after one pass of the
    loop. *)
Theorem removeBlock_overrun_truncates :
  forall b d old p start length0 fuel,
    rw_at d old p ->
    0 <= start <= size old -> 0 <= length0 ->
    size old <= start + length0 <= OFFSET_MAX ->
    (0 < fuel)%nat ->
    exists d',
      FileStream.removeBlock fuel b start length0 d = Some d'
      /\ contents d' = upto start old
      /\ size (contents d') = start
      /\ FileStream.tell b d' = start.
Proof.
  intros b d old p start length0 fuel Hrw Hs Hl Hout Hfuel.
  destruct (removeBlock_first_pass_empty b d old p start length0)
    as (d1 & Hbody & Hrw1); try assumption; try lia.
  assert (Htr : rw_at (FileStream.truncate b start d1) (upto start old) start).
  { rewrite <- resize_upto by lia.
    apply truncate_rw; [assumption | |]; unfold OFFSET_MAX in *; lia. }
  exists (FileStream.truncate b start d1).
  rewrite (rw_at_contents _ _ _ Htr), (tell_rw b _ _ _ Htr).
  split; [| split; [reflexivity | split; [rewrite size_upto; lia | reflexivity]]].
  unfold FileStream.removeBlock.
  rewrite (rw_at_isOpen _ _ _ Hrw); simpl.
  fold (remove_init b start length0 d).
  destruct fuel as [| fuel]; [lia |].
  simpl; rewrite Hbody.
  change (to_size (-1) =? 0) with false.
  destruct fuel; reflexivity.
Qed.

Lemma removeBlock_overrun_truncates_witness :
  exists d',
    FileStream.removeBlock 1 Posix 4 100 (rw_stream (ascii_bytes "ABCDEFGHIJ") 0)
    = Some d'
    /\ contents d' = ascii_bytes "ABCD".
Proof.
  destruct (removeBlock_overrun_truncates Posix
              (rw_stream (ascii_bytes "ABCDEFGHIJ") 0) (ascii_bytes "ABCDEFGHIJ")
              0 4 100 1)
    as (d' & Hrm & Hc & _).
  - exists (OS.mkHandle (ascii_bytes "ABCDEFGHIJ") 0 true false false).
    repeat split; reflexivity.
  - vm_compute; split; discriminate.
  - lia.
  - vm_compute; split; discriminate.
  - lia.
  - exists d'; split; [exact Hrm | rewrite Hc; reflexivity].
Defined.

(** X14.  In the growing case of [insert], when the replaced region ends
    at or after the end of the file, the first read returns nothing and
    the loop is left after one pass: what the file held from [start] on is
    gone, and the file is its first [start] bytes (followed by zero bytes
    up to [start] when it was shorter) and then [data].  This is for
    [data] that the backend transfers whole in one call (on Win32 the size is cast to
    [DWORD]: below 2^32 bytes). *)
Theorem insert_at_end_appends :
  forall b d old p data start replace fuel,
    rw_at d old p ->
    0 <= start -> 0 <= replace ->
    replace < size data ->
    size old <= start + replace ->
    start + replace + 2 * (size data + BufferSize b) <= OFFSET_MAX ->
    size data <= transfer_max b ->
    (Z.to_nat (size data) < fuel)%nat ->
    exists d',
      FileStream.insert fuel b data start replace d = Some d'
      /\ contents d' = resize start old ++ data
      /\ (start <= size old -> contents d' = upto start old ++ data)
      /\ FileStream.tell b d' = start + size data.
Proof.
  intros b d old p data start replace fuel Hrw Hs Hr Hg Hout Hroom Htr Hfuel.
  pose proof (BufferSize_pos b) as HB; pose proof (size_nonneg old) as Ho.
  unfold FileStream.insert.
  rewrite (rw_at_isOpen _ _ _ Hrw), (rw_at_readOnly _ _ _ Hrw); simpl.
  assert ((size data =? replace) = false) as -> by lia.
  assert ((size data <? replace) = false) as -> by lia.
  assert (Hfit : size data - replace + BufferSize b <= SIZE_MAX)
    by (unfold OFFSET_MAX, SIZE_MAX in *; lia).
  rewrite to_size_id by (unfold SIZE_MAX in *; lia).
  destruct (insert_bufferLength_least b (size data - replace) ltac:(lia) Hfit fuel)
    as (bl & -> & Hpos & _ & Hge & Hlt & _); [lia |].
  destruct fuel as [| fuel]; [lia |]; simpl.
  unfold FileStream.insert_body.
  destruct (insert_read_rw b bl (FileStream.insert_init bl data start replace d) old p)
    as (d1 & -> & Hrw1); simpl.
  - assumption.
  - rewrite to_offset_id by (unfold OFFSET_MAX in *; lia); lia.
  - rewrite to_offset_id in * by (unfold OFFSET_MAX in *; lia).
    simpl in Hrw1.
    unfold mid in *; rewrite (from_all (start + replace)) in * by lia.
    unfold upto in *; rewrite firstn_nil in *.
    unfold FileStream.insert_write; simpl.
    assert (Hw : rw_at (FileStream.writeBlock b data
                          (FileStream.seek b start Beginning d1))
                       (resize start old ++ data) (start + size data)).
    { assert (Hst : stored start data old = resize start old ++ data).
      { destruct data as [| x data]; [simpl in Hg; unfold size in Hg; simpl in Hg; lia |].
        unfold stored; rewrite pwrite_resize, from_all by lia.
        now rewrite app_nil_r. }
      rewrite <- Hst.
      apply writeBlock_rw; [| exact Htr].
      eapply seek_rw; [exact Hrw1 | unfold OFFSET_MAX in *; lia]. }
    eexists; split; [reflexivity |].
    rewrite (rw_at_contents _ _ _ Hw), (tell_rw b _ _ _ Hw).
    split; [reflexivity |]; split; [| reflexivity].
    intros Hin; rewrite resize_upto by lia; reflexivity.
Qed.

Lemma insert_at_end_appends_witness :
  exists d',
    FileStream.insert 20 Win32 (ascii_bytes "12345") 8 4
      (rw_stream (ascii_bytes "ABCDEFGHIJ") 0) = Some d'
    /\ contents d' = ascii_bytes "ABCDEFGH12345".
Proof.
  destruct (insert_at_end_appends Win32 (rw_stream (ascii_bytes "ABCDEFGHIJ") 0)
              (ascii_bytes "ABCDEFGHIJ") 0 (ascii_bytes "12345") 8 4 20)
    as (d' & Hins & _ & Hc & _).
  - exists (OS.mkHandle (ascii_bytes "ABCDEFGHIJ") 0 true false false).
    repeat split; reflexivity.
  - lia.
  - lia.
  - vm_compute; reflexivity.
  - vm_compute; discriminate.
  - vm_compute; discriminate.
  - vm_compute; discriminate.
  - vm_compute; lia.
  - exists d'; split; [exact Hins |].
    rewrite Hc by (vm_compute; discriminate); reflexivity.
Defined.
